(** * simplecipher: cipher modes and key derivation

    A shallow embedding of the Go package [simplecipher]: the keys and the
    key derivation of key.go, the string codecs of encoding.go, the errors
    and interfaces of interface.go, and the cipher files (the block file
    with [cbc], [simpleCBC] and [streamToBlock], the stream file with
    [steam], the AEAD file with [gcm] and [recoverFromPanic]).  Go strings are
    [String.string], byte slices are [list byte], [int] values are [Z] and
    [len] is the length as a [Z].  A Go function that may panic returns an
    [outcome]; a function with a deferred recover is the recovery applied to
    its body.  The primitives of crypto/aes, crypto/cipher and
    golang.org/x/crypto/scrypt are interfaces (type classes) carrying the
    contract their documentation states. *)

From Stdlib Require Import String Ascii Init.Byte Strings.Byte.
From Stdlib Require Import ZArith Lia Bool List.
Import ListNotations.

Local Open Scope Z_scope.

(** ** Bytes and slices *)

Definition len {A : Type} (l : list A) : Z := Z.of_nat (length l).

(** [byte(i)] on an [int]: the low eight bits. *)
Definition byte_of_Z (i : Z) : byte :=
  match Byte.of_N (Z.to_N (i mod 256)) with
  | Some b => b
  | None => x00
  end.

Definition Z_of_byte (b : byte) : Z := Z.of_N (Byte.to_N b).

Definition bits8 : Type :=
  (bool * (bool * (bool * (bool * (bool * (bool * (bool * bool)))))))%type.

Definition bits8_xor (a b : bits8) : bits8 :=
  let '(a0, (a1, (a2, (a3, (a4, (a5, (a6, a7))))))) := a in
  let '(b0, (b1, (b2, (b3, (b4, (b5, (b6, b7))))))) := b in
  (xorb a0 b0, (xorb a1 b1, (xorb a2 b2, (xorb a3 b3,
  (xorb a4 b4, (xorb a5 b5, (xorb a6 b6, xorb a7 b7))))))).

(** [a ^ b] on bytes. *)
Definition byte_xor (a b : byte) : byte :=
  Byte.of_bits (bits8_xor (Byte.to_bits a) (Byte.to_bits b)).

(** [s[lo:]] and [s[:hi]] on slices. *)
Definition slice_from {A : Type} (lo : Z) (s : list A) : list A := skipn (Z.to_nat lo) s.
Definition slice_to {A : Type} (hi : Z) (s : list A) : list A := firstn (Z.to_nat hi) s.

(** The integers [lo, lo+1, ..., hi-1] of a counting [for] loop. *)
Definition Zrange (lo hi : Z) : list Z :=
  map (fun k => lo + Z.of_nat k) (seq 0 (Z.to_nat (hi - lo))).

(** ** Errors (interface.go and the libraries' own) *)

Inductive error : Type :=
| ErrPlaintextBlockSize
| ErrCipherTextTooShort
| ErrCipherTextBlockSize
| ErrPanic
| ErrCopy
| ErrNewAesCipher
| aes_KeySizeError (n : Z)
| cipher_errOpen
| hex_ErrLength
| hex_InvalidByteError (b : byte)
| io_EOF
| io_ErrUnexpectedEOF
| ErrorPaddingNotFound
| ErrorPaddingNotAMultiple
| ErrorPaddingTooLong
| ErrorPaddingTooShort
| ErrorPaddingNotAllTheSame
| errors_New (msg : string)
| Errorf_w_w (e1 e2 : error)
| Errorf_w_v (e : error) (v : string).

Definition error_eq_dec (a b : error) : {a = b} + {a <> b}.
Proof.
  decide equality; first [ apply Z.eq_dec | apply Byte.byte_eq_dec | apply string_dec ].
Defined.

(** [errors.Is]: the error itself or one it wraps. *)
Fixpoint errors_Is (e target : error) : bool :=
  if error_eq_dec e target then true
  else match e with
       | Errorf_w_w e1 e2 => errors_Is e1 target || errors_Is e2 target
       | Errorf_w_v e1 _ => errors_Is e1 target
       | _ => false
       end.

Definition is_nil (err : option error) : bool :=
  match err with None => true | Some _ => false end.

(** ** Panics and deferred recovery *)

Inductive outcome (A : Type) : Type :=
| Returns (a : A)
| Panics (v : string).
Arguments Returns {A} a.
Arguments Panics {A} v.

Definition obind {A B : Type} (m : outcome A) (f : A -> outcome B) : outcome B :=
  match m with
  | Returns a => f a
  | Panics v => Panics v
  end.

Notation "x <- m ;; k" := (obind m (fun x => k))
  (at level 61, m at next level, right associativity).
Notation "' p <- m ;; k" := (obind m (fun x => let p := x in k))
  (at level 61, p pattern, m at next level, right associativity).

(** The AEAD file: [recoverFromPanic(err *error)].  [r] is what [recover()]
    returned, [err] the value the pointer holds when the deferred call runs. *)
Definition recoverFromPanic (r : option string) (err : option error) : option error :=
  match r with
  | Some v => Some (Errorf_w_v ErrPanic v)
  | None => err
  end.

(** A function [(res T, err error)] whose first statement defers a recovery:
    a normal return assigns both results and then runs the deferred call; a
    panic leaves [res] as it was ([res0]; no body assigns it before its
    return) and the deferred call overwrites [err], whatever it held. *)
Definition deferred {T : Type}
    (recovery : option string -> option error -> option error)
    (res0 : T) (body : outcome (T * option error)) : T * option error :=
  match body with
  | Returns (res, err) => (res, recovery None err)
  | Panics v => (res0, recovery (Some v) None)
  end.

(** ** Key derivation (key.go) *)

(** golang.org/x/crypto/scrypt: [Key(password, salt, N, r, p, keyLen)].  On a
    parameter error it returns [nil] and the error; otherwise [keyLen] bytes. *)
Class Scrypt : Type := {
  scrypt_Key : list byte -> list byte -> Z -> Z -> Z -> Z -> list byte * option error;
  scrypt_Key_err : forall password salt N r p keyLen key e,
    scrypt_Key password salt N r p keyLen = (key, Some e) -> key = [];
  scrypt_Key_ok : forall password salt N r p keyLen key,
    0 <= keyLen ->
    scrypt_Key password salt N r p keyLen = (key, None) -> len key = keyLen
}.

Definition KeyLen : Type := Z.

Record keyGen : Type := {
  Passphrase : string;
  Len : KeyLen;
  Salt : string
}.

Definition newKeyGen (passphrase : string) (len : KeyLen) (salt : string) : keyGen :=
  {| Passphrase := passphrase; Len := len; Salt := salt |}.

Definition bytesKey : Type := list byte.
Definition stringKey : Type := string.

(** The [Key] interface, closed over the package's three implementations. *)
Inductive Key : Type :=
| KeyBytes (k : bytesKey)
| KeyString (k : stringKey)
| KeyGen (k : keyGen).

Definition Bytes (b : list byte) : Key := KeyBytes b.
Definition StringKey (s : string) : Key := KeyString s.
Definition NewKey (passphrase : string) (len : KeyLen) (salt : string) : Key :=
  KeyGen (newKeyGen passphrase len salt).

Definition Aes128 : KeyLen := 16.
Definition Aes192 : KeyLen := 24.
Definition Aes256 : KeyLen := 32.
Definition NonceSize : KeyLen := 12.
Definition aes_BlockSize : Z := 16.

Definition is_aes_len (n : KeyLen) : bool :=
  (n =? Aes128) || (n =? Aes192) || (n =? Aes256).

Definition KeyGenOption : Type := keyGen -> keyGen.

Definition WithPassphrase (passphrase : string) : KeyGenOption :=
  fun gen => {| Passphrase := passphrase; Len := Len gen; Salt := Salt gen |}.

Definition WithSalt (salt : string) : KeyGenOption :=
  fun gen => {| Passphrase := Passphrase gen; Len := Len gen; Salt := salt |}.

Definition WithLen (keyLen : KeyLen) : KeyGenOption :=
  let keyLen := if is_aes_len keyLen then keyLen else Aes256 in
  fun gen => {| Passphrase := Passphrase gen; Len := keyLen; Salt := Salt gen |}.

Definition apply_options (options : list KeyGenOption) (keygen : keyGen) : keyGen :=
  fold_left (fun gen opt => opt gen) options keygen.

(** What [crypto/rand.Read], [math/rand.Float64] and [time.Now] give one call
    of [NewRandomIv]. *)
Record Entropy : Type := {
  rand_Read_err : option error;
  rand_Read_byte : nat -> byte;
  Sprint_float_now : string
}.

Section KeyDerivation.

Context {scrypt : Scrypt}.

(** The string the package variable [DefaultSalt] returns on every call. *)
Variable DefaultSalt : string.

Definition keyGen_Bytes (k : keyGen) : list byte :=
  let key := list_byte_of_string (Passphrase k) in
  let salt := list_byte_of_string (Salt k) in
  let expectedKeyLen := Len k in
  let expectedKeyLen := if expectedKeyLen <? 0 then 0 else expectedKeyLen in
  let '(key, err) := scrypt_Key key salt 2048 8 1 expectedKeyLen in
  if negb (is_nil err) && (len key =? expectedKeyLen) then []
  else
    let keyLength := len key in
    if keyLength <? expectedKeyLen then
      key ++ map (fun i => byte_of_Z (i mod 256)) (Zrange keyLength expectedKeyLen)
    else if keyLength >? expectedKeyLen then
      slice_to expectedKeyLen key
    else key.

Definition Key_Bytes (k : Key) : list byte :=
  match k with
  | KeyBytes b => b
  | KeyString s => list_byte_of_string s
  | KeyGen g => keyGen_Bytes g
  end.

Definition NewAesKey (passphrase : string) (options : list KeyGenOption) : Key :=
  let keygen := newKeyGen passphrase Aes256 DefaultSalt in
  let keygen := apply_options options keygen in
  let keygen :=
    if is_aes_len (Len keygen) then keygen
    else {| Passphrase := Passphrase keygen; Len := Aes256; Salt := Salt keygen |} in
  KeyGen keygen.

Definition NewNonce (passphrase : string) (options : list KeyGenOption) : Key :=
  KeyGen (apply_options options (newKeyGen passphrase NonceSize DefaultSalt)).

Definition NewIv (passphrase : string) (options : list KeyGenOption) : Key :=
  KeyGen (apply_options options (newKeyGen passphrase aes_BlockSize DefaultSalt)).

Definition NewRandomIv (E : Entropy) : Key :=
  let iv := map (rand_Read_byte E) (seq 0 (Z.to_nat aes_BlockSize)) in
  match rand_Read_err E with
  | None => Bytes iv
  | Some _ => NewIv (Sprint_float_now E) []
  end.

End KeyDerivation.

(** ** String codecs (encoding.go) *)

Record StringCodec : Type := {
  EncodeToString : list byte -> string;
  DecodeString : string -> list byte * option error
}.

Definition NopCodec : StringCodec := {|
  EncodeToString := fun src => string_of_list_byte src;
  DecodeString := fun s => (list_byte_of_string s, None)
|}.

(** encoding/hex: the table ["0123456789abcdef"] and its reverse, which gives
    [0xff] for a byte that is no hexadecimal digit. *)
Definition hextable : list byte := list_byte_of_string "0123456789abcdef".

Definition hex_digit (n : Z) : byte := nth (Z.to_nat n) hextable x00.

Definition reverseHexTable (c : byte) : Z :=
  let c := Z_of_byte c in
  if (48 <=? c) && (c <=? 57) then c - 48            (* '0'..'9' *)
  else if (97 <=? c) && (c <=? 102) then c - 97 + 10 (* 'a'..'f' *)
  else if (65 <=? c) && (c <=? 70) then c - 65 + 10  (* 'A'..'F' *)
  else 255.

Definition hex_Encode (src : list byte) : list byte :=
  flat_map (fun v => [hex_digit (Z.shiftr (Z_of_byte v) 4);
                      hex_digit (Z.land (Z_of_byte v) 15)]) src.

Fixpoint hex_Decode (src : list byte) : list byte * option error :=
  match src with
  | [] => ([], None)
  | [p] =>
      if reverseHexTable p >? 15 then ([], Some (hex_InvalidByteError p))
      else ([], Some hex_ErrLength)
  | p :: q :: rest =>
      let a := reverseHexTable p in
      let b := reverseHexTable q in
      if a >? 15 then ([], Some (hex_InvalidByteError p))
      else if b >? 15 then ([], Some (hex_InvalidByteError q))
      else let '(dst, err) := hex_Decode rest in
           (byte_of_Z (Z.lor (Z.shiftl a 4) b) :: dst, err)
  end.

Definition HexCodec : StringCodec := {|
  EncodeToString := fun src => string_of_list_byte (hex_Encode src);
  DecodeString := fun s => hex_Decode (list_byte_of_string s)
|}.

(** What every codec of encoding.go provides: decoding undoes encoding. *)
Class LawfulCodec (codec : StringCodec) : Prop :=
  decode_encode : forall src, DecodeString codec (EncodeToString codec src) = (src, None).

(** ** PKCS#7 padding (package pkcs7) *)

(** Modelled from the spec: pkcs7/pkcs7.go is not among the sources (only its
    test is).  [Pad] appends [n - len(buf) mod n] bytes, each holding that
    count; a block size outside [2,255] is a panic ("bad multiple"). *)
Definition pkcs7_Pad (n : Z) (buf : list byte) : outcome (list byte) :=
  if (n <=? 1) || (n >=? 256) then Panics "bad multiple"
  else
    let padding := n - (len buf mod n) in
    Returns (buf ++ repeat (byte_of_Z padding) (Z.to_nat padding)).

(** Modelled from the spec: [Unpad] fails on empty input, on input that is no
    multiple of [n], on a last byte above [n] or equal to 0, and on trailing
    bytes that differ from the last one; otherwise it strips the padding. *)
Definition pkcs7_Unpad (n : Z) (buf : list byte) : outcome (list byte * option error) :=
  if (n <=? 1) || (n >=? 256) then Panics "bad multiple"
  else
    let size := len buf in
    if size =? 0 then Returns ([], Some ErrorPaddingNotFound)
    else if negb (size mod n =? 0) then Returns ([], Some ErrorPaddingNotAMultiple)
    else
      let padding := Z_of_byte (last buf x00) in
      if padding >? n then Returns ([], Some ErrorPaddingTooLong)
      else if padding =? 0 then Returns ([], Some ErrorPaddingTooShort)
      else if forallb (fun b => Byte.eqb b (byte_of_Z padding))
                      (slice_from (size - padding) buf)
      then Returns (slice_to (size - padding) buf, None)
      else Returns ([], Some ErrorPaddingNotAllTheSame).

(** ** The block cipher and its modes (crypto/aes, crypto/cipher) *)

Inductive result (A : Type) : Type :=
| Ok (a : A)
| Err (e : error).
Arguments Ok {A} a.
Arguments Err {A} e.

Definition aes_key_size (key : list byte) : bool :=
  (len key =? 16) || (len key =? 24) || (len key =? 32).

(** crypto/aes: the block transform under a key, on 16-byte blocks. *)
Class AES : Type := {
  aes_Encrypt : list byte -> list byte -> list byte;
  aes_Decrypt : list byte -> list byte -> list byte;
  aes_Encrypt_len : forall key src, len src = 16 -> len (aes_Encrypt key src) = 16;
  aes_Decrypt_Encrypt : forall key src,
    aes_key_size key = true -> len src = 16 ->
    aes_Decrypt key (aes_Encrypt key src) = src
}.

(** crypto/cipher's GCM: the 16-byte authentication tag of a ciphertext under
    a key and a nonce (GHASH of the ciphertext masked with the first counter
    block), with no additional data. *)
Class GCMTag : Type := {
  gcm_tag : list byte -> list byte -> list byte -> list byte;
  gcm_tag_len : forall key nonce ct, len (gcm_tag key nonce ct) = 16
}.

Record cipher_Block : Type := { block_key : list byte }.

Definition aes_NewCipher (key : list byte) : result cipher_Block :=
  let k := len key in
  if (k =? 16) || (k =? 24) || (k =? 32) then Ok {| block_key := key |}
  else Err (aes_KeySizeError k).

(** [subtle.XORBytes]: as many bytes as the shorter argument has. *)
Definition xor_bytes (a b : list byte) : list byte :=
  map (fun xy => byte_xor (fst xy) (snd xy)) (combine a b).

(** The data cut into 16-byte blocks, the last one possibly shorter. *)
Fixpoint chunks (fuel : nat) (s : list byte) : list (list byte) :=
  match fuel with
  | O => []
  | S fuel' =>
      match s with
      | [] => []
      | _ => firstn 16 s :: chunks fuel' (skipn 16 s)
      end
  end.

Definition blocks (s : list byte) : list (list byte) := chunks (length s) s.

(** [copy(dst, src)] into a fresh zeroed [dst] of [n] bytes. *)
Definition copy_into_zeroed (n : Z) (src : list byte) : list byte :=
  slice_to n src ++ repeat x00 (Z.to_nat (n - len src)).

(** Big-endian numbers in [n] bytes. *)
Definition be_to_Z (s : list byte) : Z :=
  fold_left (fun acc b => acc * 256 + Z_of_byte b) s 0.

Definition Z_to_be (n : nat) (z : Z) : list byte :=
  map (fun k => byte_of_Z (Z.shiftr z (8 * Z.of_nat (n - 1 - k)))) (seq 0 n).

(** [XORKeyStream] with the key stream given by position. *)
Fixpoint xor_key_stream (ks : nat -> byte) (pos : nat) (src : list byte) : list byte :=
  match src with
  | [] => []
  | b :: rest => byte_xor b (ks pos) :: xor_key_stream ks (S pos) rest
  end.

Definition key_stream_of (blk : nat -> list byte) (pos : nat) : byte :=
  nth (pos mod 16) (blk (pos / 16)%nat) x00.

Section Modes.

Context {aes : AES} {tag : GCMTag}.

(** CBC: each block is xored with the previous ciphertext block (the IV for
    the first) and then transformed. *)
Fixpoint cbc_encrypt_blocks (key iv : list byte) (bs : list (list byte)) : list byte :=
  match bs with
  | [] => []
  | b :: rest =>
      let c := aes_Encrypt key (xor_bytes b iv) in
      c ++ cbc_encrypt_blocks key c rest
  end.

Fixpoint cbc_decrypt_blocks (key iv : list byte) (bs : list (list byte)) : list byte :=
  match bs with
  | [] => []
  | c :: rest => xor_bytes (aes_Decrypt key c) iv ++ cbc_decrypt_blocks key c rest
  end.

(** A [cipher.BlockMode]: what [CryptBlocks] does to a whole number of blocks. *)
Record cipher_BlockMode : Type := { crypt : list byte -> list byte }.

Definition cipher_NewCBCEncrypter (b : cipher_Block) (iv : list byte) : outcome cipher_BlockMode :=
  if negb (len iv =? aes_BlockSize) then
    Panics "cipher.NewCBCEncrypter: IV length must equal block size"
  else Returns {| crypt := fun src => cbc_encrypt_blocks (block_key b) iv (blocks src) |}.

Definition cipher_NewCBCDecrypter (b : cipher_Block) (iv : list byte) : outcome cipher_BlockMode :=
  if negb (len iv =? aes_BlockSize) then
    Panics "cipher.NewCBCDecrypter: IV length must equal block size"
  else Returns {| crypt := fun src => cbc_decrypt_blocks (block_key b) iv (blocks src) |}.

(** [mode.CryptBlocks(dst, src)] with [dst] of [dst_len] bytes: the bytes
    written to [dst[:len(src)]]. *)
Definition CryptBlocks (mode : cipher_BlockMode) (dst_len : Z) (src : list byte)
  : outcome (list byte) :=
  if negb (len src mod aes_BlockSize =? 0) then Panics "crypto/cipher: input not full blocks"
  else if dst_len <? len src then Panics "crypto/cipher: output smaller than input"
  else Returns (crypt mode src).

(** A [cipher.Stream]: what [XORKeyStream] does to all the data that passes
    through it, from the first byte on. *)
Definition cipher_Stream : Type := list byte -> list byte.

(** CFB: the key stream of a block is the transform of the previous
    ciphertext block (the IV for the first). *)
Fixpoint cfb_encrypt_blocks (key prev : list byte) (bs : list (list byte)) : list byte :=
  match bs with
  | [] => []
  | b :: rest =>
      let c := xor_bytes b (aes_Encrypt key prev) in
      c ++ cfb_encrypt_blocks key c rest
  end.

Fixpoint cfb_decrypt_blocks (key prev : list byte) (bs : list (list byte)) : list byte :=
  match bs with
  | [] => []
  | c :: rest => xor_bytes c (aes_Encrypt key prev) ++ cfb_decrypt_blocks key c rest
  end.

Definition cipher_NewCFBEncrypter (b : cipher_Block) (iv : list byte) : outcome cipher_Stream :=
  if negb (len iv =? aes_BlockSize) then
    Panics "cipher.newCFB: IV length must equal block size"
  else Returns (fun src => cfb_encrypt_blocks (block_key b) iv (blocks src)).

Definition cipher_NewCFBDecrypter (b : cipher_Block) (iv : list byte) : outcome cipher_Stream :=
  if negb (len iv =? aes_BlockSize) then
    Panics "cipher.newCFB: IV length must equal block size"
  else Returns (fun src => cfb_decrypt_blocks (block_key b) iv (blocks src)).

(** OFB: key stream block [i] is the transform applied [i+1] times to the IV. *)
Definition ofb_block (key iv : list byte) (i : nat) : list byte :=
  Nat.iter (S i) (aes_Encrypt key) iv.

Definition cipher_NewOFB (b : cipher_Block) (iv : list byte) : outcome cipher_Stream :=
  if negb (len iv =? aes_BlockSize) then
    Panics "cipher.NewOFB: IV length must equal block size"
  else Returns (xor_key_stream (key_stream_of (ofb_block (block_key b) iv)) 0).

(** CTR: key stream block [i] is the transform of the IV, read as a
    big-endian counter, plus [i]. *)
Definition ctr_block (key iv : list byte) (i : nat) : list byte :=
  aes_Encrypt key (Z_to_be 16 ((be_to_Z iv + Z.of_nat i) mod 2 ^ 128)).

Definition cipher_NewCTR (b : cipher_Block) (iv : list byte) : outcome cipher_Stream :=
  if negb (len iv =? aes_BlockSize) then
    Panics "cipher.NewCTR: IV length must equal block size"
  else Returns (xor_key_stream (key_stream_of (ctr_block (block_key b) iv)) 0).

(** GCM with the standard 12-byte nonce and 16-byte tag: counter block [i]
    is the nonce followed by the 32-bit big-endian [i]; the data is
    encrypted from counter 2 on, and the tag follows the ciphertext. *)
Record cipher_AEAD : Type := { aead_key : list byte }.

Definition cipher_NewGCM (b : cipher_Block) : result cipher_AEAD :=
  Ok {| aead_key := block_key b |}.

Definition gcm_block (key nonce : list byte) (i : nat) : list byte :=
  aes_Encrypt key (nonce ++ Z_to_be 4 ((2 + Z.of_nat i) mod 2 ^ 32)).

Definition gcmTagSize : Z := 16.
Definition gcmStandardNonceSize : Z := 12.

Definition Seal (g : cipher_AEAD) (nonce plaintext : list byte) : outcome (list byte) :=
  if negb (len nonce =? gcmStandardNonceSize) then
    Panics "crypto/cipher: incorrect nonce length given to GCM"
  else
    let ct := xor_key_stream (key_stream_of (gcm_block (aead_key g) nonce)) 0 plaintext in
    Returns (ct ++ gcm_tag (aead_key g) nonce ct).

Definition Open (g : cipher_AEAD) (nonce ciphertext : list byte)
  : outcome (result (list byte)) :=
  if negb (len nonce =? gcmStandardNonceSize) then
    Panics "crypto/cipher: incorrect nonce length given to GCM"
  else if len ciphertext <? gcmTagSize then Returns (Err cipher_errOpen)
  else
    let tag := slice_from (len ciphertext - gcmTagSize) ciphertext in
    let ct := slice_to (len ciphertext - gcmTagSize) ciphertext in
    if list_eq_dec Byte.byte_eq_dec (gcm_tag (aead_key g) nonce ct) tag then
      Returns (Ok (xor_key_stream (key_stream_of (gcm_block (aead_key g) nonce)) 0 ct))
    else Returns (Err cipher_errOpen).

End Modes.

(** ** In-memory readers and writers *)

(** A [bytes.Reader] is the bytes not yet read, a [bytes.Buffer] the bytes
    written so far; neither fails. *)
Definition Reader : Type := list byte.
Definition Writer : Type := list byte.

(** [io.ReadFull(r, buf)] with [buf] of [n] bytes: the bytes read, the reader
    afterwards, and [io.EOF] when nothing could be read or
    [io.ErrUnexpectedEOF] when fewer than [n] bytes could. *)
Definition io_ReadFull (r : Reader) (n : Z) : list byte * Reader * option error :=
  if n <=? len r then (slice_to n r, slice_from n r, None)
  else if len r =? 0 then ([], r, Some io_EOF)
  else (r, [], Some io_ErrUnexpectedEOF).

(** [w.Write(p)] on a [bytes.Buffer]. *)
Definition Writer_Write (w : Writer) (p : list byte) : Writer * option error :=
  (w ++ p, None).

(** [io.Copy(&cipher.StreamWriter{S: stream, W: w}, r)]: all of [r] goes
    through the key stream and into [w]. *)
Definition io_Copy_StreamWriter (stream : cipher_Stream) (w : Writer) (r : Reader)
  : Writer * option error :=
  Writer_Write w (stream r).

(** [io.Copy(w, &cipher.StreamReader{S: stream, R: r})]. *)
Definition io_Copy_StreamReader (w : Writer) (stream : cipher_Stream) (r : Reader)
  : Writer * option error :=
  Writer_Write w (stream r).

Definition encryptOrDecrypt : Type := Z.
Definition encrypt : encryptOrDecrypt := 0.
Definition decrypt : encryptOrDecrypt := 1.

Definition cipherStreamBuilder : Type :=
  list byte -> list byte -> encryptOrDecrypt -> outcome (result cipher_Stream).

Record cbc : Type := { cbc_key : Key; cbc_iv : Key }.
Record simpleCBC : Type := { simpleCBC_cbc : cbc }.
Record steam : Type := { steam_key : Key; steam_iv : Key; cipherStream : cipherStreamBuilder }.
Record streamToBlock : Type := { Stream : steam }.
Record gcm : Type := { gcm_key : Key; gcm_nonce : Key }.

(** The [Cipher] interface, closed over the package's implementations. *)
Inductive Cipher : Type :=
| CipherCBC (c : cbc)
| CipherSimpleCBC (c : simpleCBC)
| CipherStreamToBlock (s : streamToBlock)
| CipherGCM (g : gcm).

(** Modelled from the spec: [EncryptStream] and [DecryptStream] defer
    [recoverPanic], which is not among the sources (only these two callers
    are).  Section 9: a panic/recover
    pattern at each public entry point converts unexpected faults into
    errors; it is taken to be the conversion [recoverFromPanic] performs. *)
Definition recoverPanic (r : option string) (err : option error) : option error :=
  recoverFromPanic r err.

Section Ciphers.

Context {scrypt : Scrypt} {aes : AES} {tag : GCMTag}.

(** The package variables [DefaultStringCodec] and [DefaultSalt]. *)
Variable DefaultStringCodec : StringCodec.
Variable DefaultSalt : string.

(** *** The stream file: [steam] and its three key streams *)

Definition cfbStreamBuilder : cipherStreamBuilder := fun key iv encryptOrDecrypt =>
  match aes_NewCipher key with
  | Err err => Returns (Err err)
  | Ok block =>
      if encryptOrDecrypt =? encrypt then
        stream <- cipher_NewCFBEncrypter block iv ;; Returns (Ok stream)
      else if encryptOrDecrypt =? decrypt then
        stream <- cipher_NewCFBDecrypter block iv ;; Returns (Ok stream)
      else Returns (Err (errors_New "invalid encryptOrDecrypt"))
  end.

Definition ofbStreamBuilder : cipherStreamBuilder := fun key iv _ =>
  match aes_NewCipher key with
  | Err err => Returns (Err err)
  | Ok block => stream <- cipher_NewOFB block iv ;; Returns (Ok stream)
  end.

Definition ctrStreamBuilder : cipherStreamBuilder := fun key iv _ =>
  match aes_NewCipher key with
  | Err err => Returns (Err err)
  | Ok block => stream <- cipher_NewCTR block iv ;; Returns (Ok stream)
  end.

(** The body of [EncryptStream]: the writer afterwards and the error. *)
Definition steam_EncryptStream_body (s : steam) (plainText : Reader) (cipherText : Writer)
  : outcome (Writer * option error) :=
  let key := Key_Bytes (steam_key s) in
  let iv := Key_Bytes (steam_iv s) in
  r <- cipherStream s key iv encrypt ;;
  match r with
  | Err err => Returns (cipherText, Some (Errorf_w_w ErrNewAesCipher err))
  | Ok stream =>
      let '(cipherText, err) := Writer_Write cipherText iv in
      match err with
      | Some err => Returns (cipherText, Some (Errorf_w_w ErrCopy err))
      | None =>
          let '(cipherText, err) := io_Copy_StreamWriter stream cipherText plainText in
          match err with
          | Some err => Returns (cipherText, Some (Errorf_w_w ErrCopy err))
          | None => Returns (cipherText, None)
          end
      end
  end.

Definition steam_EncryptStream (s : steam) (plainText : Reader) (cipherText : Writer)
  : Writer * option error :=
  deferred recoverPanic cipherText (steam_EncryptStream_body s plainText cipherText).

Definition steam_DecryptStream_body (s : steam) (cipherText : Reader) (plainText : Writer)
  : outcome (Writer * option error) :=
  let key := Key_Bytes (steam_key s) in
  let '(iv, cipherText, err) := io_ReadFull cipherText aes_BlockSize in
  match err with
  | Some err => Returns (plainText, Some (Errorf_w_w ErrCopy err))
  | None =>
      r <- cipherStream s key iv decrypt ;;
      match r with
      | Err err => Returns (plainText, Some (Errorf_w_w ErrNewAesCipher err))
      | Ok stream =>
          let '(plainText, err) := io_Copy_StreamReader plainText stream cipherText in
          match err with
          | Some err => Returns (plainText, Some (Errorf_w_w ErrCopy err))
          | None => Returns (plainText, None)
          end
      end
  end.

Definition steam_DecryptStream (s : steam) (cipherText : Reader) (plainText : Writer)
  : Writer * option error :=
  deferred recoverPanic plainText (steam_DecryptStream_body s cipherText plainText).

Definition NewCFBStream (key iv : Key) : steam :=
  {| steam_key := key; steam_iv := iv; cipherStream := cfbStreamBuilder |}.
Definition NewOFBStream (key iv : Key) : steam :=
  {| steam_key := key; steam_iv := iv; cipherStream := ofbStreamBuilder |}.
Definition NewCTRStream (key iv : Key) : steam :=
  {| steam_key := key; steam_iv := iv; cipherStream := ctrStreamBuilder |}.

Definition SimpleCFBStream (E : Entropy) (keyPassphrase : string) : steam :=
  NewCFBStream (NewAesKey DefaultSalt keyPassphrase []) (NewRandomIv DefaultSalt E).
Definition SimpleOFBStream (E : Entropy) (keyPassphrase : string) : steam :=
  NewOFBStream (NewAesKey DefaultSalt keyPassphrase []) (NewRandomIv DefaultSalt E).
Definition SimpleCTRStream (E : Entropy) (keyPassphrase : string) : steam :=
  NewCTRStream (NewAesKey DefaultSalt keyPassphrase []) (NewRandomIv DefaultSalt E).

(** *** The block file: [cbc], [simpleCBC] and the stream adapter *)

Definition NewCBC (key iv : Key) : Cipher := CipherCBC {| cbc_key := key; cbc_iv := iv |}.

Definition cbc_Encrypt_body (c : cbc) (plainText : string) : outcome (string * option error) :=
  let plaintext := list_byte_of_string plainText in
  let key := Key_Bytes (cbc_key c) in
  let iv := Key_Bytes (cbc_iv c) in
  if negb (len plaintext mod aes_BlockSize =? 0) then
    Returns (EmptyString, Some ErrPlaintextBlockSize)
  else
    match aes_NewCipher key with
    | Err err => Returns (EmptyString, Some err)
    | Ok block =>
        let ciphertext_iv := copy_into_zeroed aes_BlockSize iv in
        mode <- cipher_NewCBCEncrypter block iv ;;
        ciphertext_rest <- CryptBlocks mode (len plaintext) plaintext ;;
        Returns (EncodeToString DefaultStringCodec (ciphertext_iv ++ ciphertext_rest), None)
    end.

Definition cbc_Encrypt (c : cbc) (plainText : string) : string * option error :=
  deferred recoverFromPanic EmptyString (cbc_Encrypt_body c plainText).

Definition cbc_Decrypt_body (c : cbc) (cipherText : string) : outcome (string * option error) :=
  match DecodeString DefaultStringCodec cipherText with
  | (_, Some err) => Returns (EmptyString, Some err)
  | (ciphertext, None) =>
      let key := Key_Bytes (cbc_key c) in
      match aes_NewCipher key with
      | Err err => Returns (EmptyString, Some err)
      | Ok block =>
          if len ciphertext <? aes_BlockSize then
            Returns (EmptyString, Some ErrCipherTextTooShort)
          else if negb (len ciphertext mod aes_BlockSize =? 0) then
            Returns (EmptyString, Some ErrCipherTextBlockSize)
          else
            let iv := slice_to aes_BlockSize ciphertext in
            let ciphertext := slice_from aes_BlockSize ciphertext in
            mode <- cipher_NewCBCDecrypter block iv ;;
            ciphertext <- CryptBlocks mode (len ciphertext) ciphertext ;;
            Returns (string_of_list_byte ciphertext, None)
      end
  end.

Definition cbc_Decrypt (c : cbc) (cipherText : string) : string * option error :=
  deferred recoverFromPanic EmptyString (cbc_Decrypt_body c cipherText).

Definition SimpleCBC (E : Entropy) (keyPassphrase : string) : Cipher :=
  CipherSimpleCBC
    {| simpleCBC_cbc := {| cbc_key := NewAesKey DefaultSalt keyPassphrase [];
                           cbc_iv := NewRandomIv DefaultSalt E |} |}.

Definition simpleCBC_Encrypt_body (c : simpleCBC) (plainText : string)
  : outcome (string * option error) :=
  padded <- pkcs7_Pad aes_BlockSize (list_byte_of_string plainText) ;;
  let paddedText := string_of_list_byte padded in
  Returns (cbc_Encrypt (simpleCBC_cbc c) paddedText).

Definition simpleCBC_Encrypt (c : simpleCBC) (plainText : string) : string * option error :=
  deferred recoverFromPanic EmptyString (simpleCBC_Encrypt_body c plainText).

Definition simpleCBC_Decrypt_body (c : simpleCBC) (cipherText : string)
  : outcome (string * option error) :=
  match cbc_Decrypt (simpleCBC_cbc c) cipherText with
  | (_, Some err) => Returns (EmptyString, Some err)
  | (paddedText, None) =>
      '(plaintext, err) <- pkcs7_Unpad aes_BlockSize (list_byte_of_string paddedText) ;;
      Returns (string_of_list_byte plaintext, err)
  end.

Definition simpleCBC_Decrypt (c : simpleCBC) (cipherText : string) : string * option error :=
  deferred recoverFromPanic EmptyString (simpleCBC_Decrypt_body c cipherText).

Definition newStreamToBlock (sc : steam) : Cipher := CipherStreamToBlock {| Stream := sc |}.

Definition streamToBlock_Encrypt_body (s : streamToBlock) (plainText : string)
  : outcome (string * option error) :=
  let plainTextReader : Reader := list_byte_of_string plainText in
  let cipherTextBuffer : Writer := [] in
  let '(cipherTextBuffer, err) := steam_EncryptStream (Stream s) plainTextReader cipherTextBuffer in
  match err with
  | Some err => Returns (EmptyString, Some err)
  | None =>
      let cipherTextBytes := cipherTextBuffer in
      let encodedCipherText := EncodeToString DefaultStringCodec cipherTextBytes in
      Returns (encodedCipherText, None)
  end.

Definition streamToBlock_Encrypt (s : streamToBlock) (plainText : string)
  : string * option error :=
  deferred recoverFromPanic EmptyString (streamToBlock_Encrypt_body s plainText).

Definition streamToBlock_Decrypt_body (s : streamToBlock) (cipherText : string)
  : outcome (string * option error) :=
  match DecodeString DefaultStringCodec cipherText with
  | (_, Some err) => Returns (EmptyString, Some err)
  | (cipherTextBytes, None) =>
      let plainTextBuffer : Writer := [] in
      let '(plainTextBuffer, err) :=
        steam_DecryptStream (Stream s) cipherTextBytes plainTextBuffer in
      match err with
      | Some err => Returns (EmptyString, Some err)
      | None => Returns (string_of_list_byte plainTextBuffer, None)
      end
  end.

Definition streamToBlock_Decrypt (s : streamToBlock) (cipherText : string)
  : string * option error :=
  deferred recoverFromPanic EmptyString (streamToBlock_Decrypt_body s cipherText).

Definition NewCFB (key iv : Key) : Cipher := newStreamToBlock (NewCFBStream key iv).
Definition NewOFB (key iv : Key) : Cipher := newStreamToBlock (NewOFBStream key iv).
Definition NewCTR (key iv : Key) : Cipher := newStreamToBlock (NewCTRStream key iv).

Definition SimpleCFB (E : Entropy) (keyPassphrase : string) : Cipher :=
  newStreamToBlock (SimpleCFBStream E keyPassphrase).
Definition SimpleOFB (E : Entropy) (keyPassphrase : string) : Cipher :=
  newStreamToBlock (SimpleOFBStream E keyPassphrase).
Definition SimpleCTR (E : Entropy) (keyPassphrase : string) : Cipher :=
  newStreamToBlock (SimpleCTRStream E keyPassphrase).

(** *** The AEAD file: [gcm] *)

Definition NewGCM (key nonce : Key) : Cipher := CipherGCM {| gcm_key := key; gcm_nonce := nonce |}.

Definition SimpleGCM (keyPassphrase noncePassphrase : string) : Cipher :=
  NewGCM (NewAesKey DefaultSalt keyPassphrase []) (NewNonce DefaultSalt noncePassphrase []).

Definition gcm_Encrypt_body (g : gcm) (plainText : string) : outcome (string * option error) :=
  let plaintext := list_byte_of_string plainText in
  let key := Key_Bytes (gcm_key g) in
  let nonce := Key_Bytes (gcm_nonce g) in
  match aes_NewCipher key with
  | Err err => Returns (EmptyString, Some err)
  | Ok block =>
      match cipher_NewGCM block with
      | Err err => Returns (EmptyString, Some err)
      | Ok aesgcm =>
          ciphertext <- Seal aesgcm nonce plaintext ;;
          Returns (EncodeToString DefaultStringCodec ciphertext, None)
      end
  end.

Definition gcm_Encrypt (g : gcm) (plainText : string) : string * option error :=
  deferred recoverFromPanic EmptyString (gcm_Encrypt_body g plainText).

Definition gcm_Decrypt_body (g : gcm) (cipherText : string) : outcome (string * option error) :=
  match DecodeString DefaultStringCodec cipherText with
  | (_, Some err) => Returns (EmptyString, Some err)
  | (ciphertext, None) =>
      let key := Key_Bytes (gcm_key g) in
      let nonce := Key_Bytes (gcm_nonce g) in
      match aes_NewCipher key with
      | Err err => Returns (EmptyString, Some err)
      | Ok block =>
          match cipher_NewGCM block with
          | Err err => Returns (EmptyString, Some err)
          | Ok aesgcm =>
              r <- Open aesgcm nonce ciphertext ;;
              match r with
              | Err err => Returns (EmptyString, Some err)
              | Ok plaintext => Returns (string_of_list_byte plaintext, None)
              end
          end
      end
  end.

Definition gcm_Decrypt (g : gcm) (cipherText : string) : string * option error :=
  deferred recoverFromPanic EmptyString (gcm_Decrypt_body g cipherText).

(** *** The interface methods *)

Definition Encrypt (c : Cipher) (plainText : string) : string * option error :=
  match c with
  | CipherCBC c => cbc_Encrypt c plainText
  | CipherSimpleCBC c => simpleCBC_Encrypt c plainText
  | CipherStreamToBlock s => streamToBlock_Encrypt s plainText
  | CipherGCM g => gcm_Encrypt g plainText
  end.

Definition Decrypt (c : Cipher) (cipherText : string) : string * option error :=
  match c with
  | CipherCBC c => cbc_Decrypt c cipherText
  | CipherSimpleCBC c => simpleCBC_Decrypt c cipherText
  | CipherStreamToBlock s => streamToBlock_Decrypt s cipherText
  | CipherGCM g => gcm_Decrypt g cipherText
  end.

(** The body a public string method defers its recovery around. *)
Definition Encrypt_body (c : Cipher) (plainText : string) : outcome (string * option error) :=
  match c with
  | CipherCBC c => cbc_Encrypt_body c plainText
  | CipherSimpleCBC c => simpleCBC_Encrypt_body c plainText
  | CipherStreamToBlock s => streamToBlock_Encrypt_body s plainText
  | CipherGCM g => gcm_Encrypt_body g plainText
  end.

Definition Decrypt_body (c : Cipher) (cipherText : string) : outcome (string * option error) :=
  match c with
  | CipherCBC c => cbc_Decrypt_body c cipherText
  | CipherSimpleCBC c => simpleCBC_Decrypt_body c cipherText
  | CipherStreamToBlock s => streamToBlock_Decrypt_body s cipherText
  | CipherGCM g => gcm_Decrypt_body g cipherText
  end.

End Ciphers.

(** * Properties *)

(** ** Lists, bytes and lengths *)

Lemma len_nonneg {A : Type} (l : list A) : 0 <= len l.
Proof. unfold len. lia. Qed.

Lemma len_nil {A : Type} : len (@nil A) = 0.
Proof. reflexivity. Qed.

Lemma len_app {A : Type} (l1 l2 : list A) : len (l1 ++ l2) = len l1 + len l2.
Proof. unfold len. rewrite length_app. lia. Qed.

Lemma len_zero_nil {A : Type} (l : list A) : len l = 0 -> l = [].
Proof. destruct l; [reflexivity | unfold len; simpl; lia]. Qed.

Lemma len_Zrange (lo hi : Z) : lo <= hi -> len (Zrange lo hi) = hi - lo.
Proof.
  intros Hle. unfold len, Zrange. rewrite length_map, length_seq. lia.
Qed.

Lemma len_slice_to {A : Type} (hi : Z) (s : list A) :
  0 <= hi <= len s -> len (slice_to hi s) = hi.
Proof.
  intros Hhi. unfold len, slice_to in *. rewrite length_firstn. lia.
Qed.

Lemma len_slice_from {A : Type} (lo : Z) (s : list A) :
  0 <= lo <= len s -> len (slice_from lo s) = len s - lo.
Proof.
  intros Hlo. unfold len, slice_from in *. rewrite length_skipn. lia.
Qed.

Lemma slice_to_from {A : Type} (n : Z) (s : list A) : slice_to n s ++ slice_from n s = s.
Proof. apply firstn_skipn. Qed.

Lemma slice_to_app {A : Type} (a b : list A) : slice_to (len a) (a ++ b) = a.
Proof.
  unfold slice_to, len. rewrite Nat2Z.id, firstn_app, Nat.sub_diag, firstn_all.
  simpl. apply app_nil_r.
Qed.

Lemma slice_from_app {A : Type} (a b : list A) : slice_from (len a) (a ++ b) = b.
Proof.
  unfold slice_from, len. rewrite Nat2Z.id, skipn_app, Nat.sub_diag, skipn_all.
  reflexivity.
Qed.

Lemma byte_xor_involutive (a k : byte) : byte_xor (byte_xor a k) k = a.
Proof.
  unfold byte_xor. rewrite Byte.to_bits_of_bits.
  rewrite <- (Byte.of_bits_to_bits a) at 2.
  f_equal.
  destruct (Byte.to_bits a) as [a0 [a1 [a2 [a3 [a4 [a5 [a6 a7]]]]]]].
  destruct (Byte.to_bits k) as [k0 [k1 [k2 [k3 [k4 [k5 [k6 k7]]]]]]].
  simpl. repeat rewrite xorb_assoc. repeat rewrite xorb_nilpotent.
  repeat rewrite xorb_false_r. reflexivity.
Qed.

(** ** Key derivation *)

Section KeyDerivationFacts.

Context {scrypt : Scrypt}.

Definition expected_len (k : keyGen) : Z := if Len k <? 0 then 0 else Len k.

Lemma expected_len_max (k : keyGen) : expected_len k = Z.max (Len k) 0.
Proof. unfold expected_len. destruct (Z.ltb_spec (Len k) 0); lia. Qed.

Lemma keyGen_Bytes_len (k : keyGen) : len (keyGen_Bytes k) = Z.max (Len k) 0.
Proof.
  rewrite <- expected_len_max. unfold keyGen_Bytes. fold (expected_len k).
  assert (Hexp : 0 <= expected_len k) by (rewrite expected_len_max; lia).
  destruct (scrypt_Key _ _ 2048 8 1 (expected_len k)) as [key err] eqn:Hs.
  destruct err as [e|]; cbn [is_nil negb andb].
  - apply scrypt_Key_err in Hs. subst key. rewrite len_nil.
    destruct (Z.eqb_spec 0 (expected_len k)) as [Heq|Hne]; [now rewrite len_nil|].
    destruct (Z.ltb_spec 0 (expected_len k)); [|lia].
    simpl. unfold len at 1. rewrite length_map.
    fold (len (Zrange 0 (expected_len k))). rewrite len_Zrange; lia.
  - pose proof (len_nonneg key) as Hk.
    destruct (Z.ltb_spec (len key) (expected_len k)).
    + rewrite len_app. unfold len at 2. rewrite length_map.
      fold (len (Zrange (len key) (expected_len k))). rewrite len_Zrange; lia.
    + destruct (Z.gtb_spec (len key) (expected_len k)).
      * apply len_slice_to. lia.
      * lia.
Qed.

Lemma keyGen_Bytes_nonpositive (k : keyGen) : Len k <= 0 -> keyGen_Bytes k = [].
Proof.
  intros Hle. apply len_zero_nil. rewrite keyGen_Bytes_len. lia.
Qed.

(** When scrypt reports an error the passphrase no longer takes part: the
    result is the bytes [0, 1, ..., n-1] (each modulo 256). *)
Lemma keyGen_Bytes_scrypt_error (k : keyGen) (key : list byte) (e : error) :
  scrypt_Key (list_byte_of_string (Passphrase k)) (list_byte_of_string (Salt k))
             2048 8 1 (expected_len k) = (key, Some e) ->
  keyGen_Bytes k = map (fun i => byte_of_Z (i mod 256)) (Zrange 0 (expected_len k)).
Proof.
  intros Hs. unfold keyGen_Bytes. fold (expected_len k). rewrite Hs.
  apply scrypt_Key_err in Hs. subst key. cbn [is_nil negb andb]. rewrite len_nil.
  assert (Hexp : 0 <= expected_len k) by (rewrite expected_len_max; lia).
  destruct (Z.eqb_spec 0 (expected_len k)) as [Heq|Hne].
  - rewrite <- Heq. reflexivity.
  - destruct (Z.ltb_spec 0 (expected_len k)); [reflexivity | lia].
Qed.

End KeyDerivationFacts.

(** *** A stand-in for scrypt

    [sample_scrypt] always succeeds and stretches password and salt to the
    requested length. *)

Definition sample_scrypt_Key (password salt : list byte) (N r p keyLen : Z)
  : list byte * option error :=
  let src := password ++ salt ++ [x01] in
  (map (fun i => nth (Nat.modulo i (length src)) src x00) (seq 0 (Z.to_nat keyLen)), None).

Lemma sample_scrypt_Key_err password salt N r p keyLen key e :
  sample_scrypt_Key password salt N r p keyLen = (key, Some e) -> key = [].
Proof. unfold sample_scrypt_Key. intros H. inversion H. Qed.

Lemma sample_scrypt_Key_ok password salt N r p keyLen key :
  0 <= keyLen ->
  sample_scrypt_Key password salt N r p keyLen = (key, None) -> len key = keyLen.
Proof.
  unfold sample_scrypt_Key. intros Hk H. inversion H. subst key.
  unfold len. rewrite length_map, length_seq. lia.
Qed.

Definition sample_scrypt : Scrypt := {|
  scrypt_Key := sample_scrypt_Key;
  scrypt_Key_err := sample_scrypt_Key_err;
  scrypt_Key_ok := sample_scrypt_Key_ok
|}.

(** The derived keys are all [keyGen] values; their bytes are [keyGen.Bytes]. *)
Lemma derived_keys_are_keyGen {scrypt : Scrypt} (DefaultSalt passphrase salt : string)
    (n : KeyLen) (options : list KeyGenOption) :
  (exists g, NewKey passphrase n salt = KeyGen g) /\
  (exists g, NewAesKey DefaultSalt passphrase options = KeyGen g) /\
  (exists g, NewNonce DefaultSalt passphrase options = KeyGen g) /\
  (exists g, NewIv DefaultSalt passphrase options = KeyGen g) /\
  (forall g, Key_Bytes (KeyGen g) = keyGen_Bytes g).
Proof. repeat split; eexists; reflexivity. Qed.

(** C2.  Key derivation is a function of passphrase, length and salt alone:
    two [keyGen] values that agree on the three fields derive the same
    bytes; the result has exactly [max(Len, 0)] bytes; and a length of zero
    or less derives the empty sequence.  [NewKey], [NewAesKey], [NewNonce]
    and [NewIv] all return such a [keyGen]. *)
Theorem keyGen_Bytes_deterministic_exact_length {scrypt : Scrypt} (k1 k2 : keyGen) :
  Passphrase k1 = Passphrase k2 -> Len k1 = Len k2 -> Salt k1 = Salt k2 ->
  keyGen_Bytes k1 = keyGen_Bytes k2 /\
  len (keyGen_Bytes k1) = Z.max (Len k1) 0 /\
  (Len k1 <= 0 -> keyGen_Bytes k1 = []).
Proof.
  intros Hp Hl Hs. split; [|split].
  - destruct k1, k2. simpl in *. subst. reflexivity.
  - apply keyGen_Bytes_len.
  - apply keyGen_Bytes_nonpositive.
Qed.

(** C2 at the passphrase "hello, world", length 16 and salt "testsalt" of
    [Test_keyGen_Bytes]. *)
Lemma keyGen_Bytes_deterministic_exact_length_witness :
  @keyGen_Bytes sample_scrypt (newKeyGen "hello, world" 16 "testsalt") =
  @keyGen_Bytes sample_scrypt (newKeyGen "hello, world" 16 "testsalt") /\
  len (@keyGen_Bytes sample_scrypt (newKeyGen "hello, world" 16 "testsalt")) = Z.max 16 0 /\
  (16 <= 0 -> @keyGen_Bytes sample_scrypt (newKeyGen "hello, world" 16 "testsalt") = []).
Proof.
  exact (@keyGen_Bytes_deterministic_exact_length sample_scrypt
           (newKeyGen "hello, world" 16 "testsalt")
           (newKeyGen "hello, world" 16 "testsalt") eq_refl eq_refl eq_refl).
Defined.

Section AesKeyLength.

Context {scrypt : Scrypt}.
Variable DefaultSalt : string.




Lemma NewAesKey_default_len (passphrase : string) :
  len (Key_Bytes (NewAesKey DefaultSalt passphrase [])) = 32.
Proof. unfold NewAesKey. cbn. rewrite keyGen_Bytes_len. reflexivity. Qed.





Lemma NewIv_default_len (passphrase : string) :
  len (Key_Bytes (NewIv DefaultSalt passphrase [])) = 16.
Proof. cbn. rewrite keyGen_Bytes_len. reflexivity. Qed.

Lemma NewNonce_default_len (passphrase : string) :
  len (Key_Bytes (NewNonce DefaultSalt passphrase [])) = 12.
Proof. cbn. rewrite keyGen_Bytes_len. reflexivity. Qed.


End AesKeyLength.


(** ** Codecs *)

Lemma NopCodec_lawful : LawfulCodec NopCodec.
Proof.
  intros src. unfold NopCodec. cbn [EncodeToString DecodeString].
  rewrite list_byte_of_string_of_list_byte. reflexivity.
Qed.

Lemma hex_digits_of_byte (v : byte) :
  (reverseHexTable (hex_digit (Z.shiftr (Z_of_byte v) 4)) >? 15) = false /\
  (reverseHexTable (hex_digit (Z.land (Z_of_byte v) 15)) >? 15) = false /\
  byte_of_Z (Z.lor (Z.shiftl (reverseHexTable (hex_digit (Z.shiftr (Z_of_byte v) 4))) 4)
                   (reverseHexTable (hex_digit (Z.land (Z_of_byte v) 15)))) = v.
Proof. destruct v; vm_compute; repeat split; reflexivity. Qed.

Lemma hex_Decode_pair (p q : byte) (rest : list byte) :
  hex_Decode (p :: q :: rest) =
  if reverseHexTable p >? 15 then ([], Some (hex_InvalidByteError p))
  else if reverseHexTable q >? 15 then ([], Some (hex_InvalidByteError q))
  else let '(dst, err) := hex_Decode rest in
       (byte_of_Z (Z.lor (Z.shiftl (reverseHexTable p) 4) (reverseHexTable q)) :: dst, err).
Proof. reflexivity. Qed.

Lemma hex_Decode_Encode (src : list byte) : hex_Decode (hex_Encode src) = (src, None).
Proof.
  induction src as [|v src IH]; [reflexivity|].
  change (hex_Encode (v :: src))
    with (hex_digit (Z.shiftr (Z_of_byte v) 4)
          :: hex_digit (Z.land (Z_of_byte v) 15) :: hex_Encode src).
  rewrite hex_Decode_pair.
  destruct (hex_digits_of_byte v) as (Hhi & Hlo & Hv).
  rewrite Hhi, Hlo, IH, Hv. reflexivity.
Qed.

Lemma HexCodec_lawful : LawfulCodec HexCodec.
Proof.
  intros src. unfold HexCodec. cbn [EncodeToString DecodeString].
  rewrite list_byte_of_string_of_list_byte. apply hex_Decode_Encode.
Qed.

(** ** Stand-ins for the block transform and the GCM tag

    [sample_aes] xors every byte of a block with the first key byte;
    [sample_tag] is the big-endian sum of key, nonce and ciphertext in 16
    bytes.  They satisfy the contracts and let the theorems be run. *)

Definition sample_aes_crypt (key src : list byte) : list byte :=
  map (fun b => byte_xor b (hd x00 key)) src.

Lemma sample_aes_crypt_len key src : len src = 16 -> len (sample_aes_crypt key src) = 16.
Proof. unfold len, sample_aes_crypt. now rewrite length_map. Qed.

Lemma sample_aes_crypt_involutive key src :
  aes_key_size key = true -> len src = 16 ->
  sample_aes_crypt key (sample_aes_crypt key src) = src.
Proof.
  intros _ _. unfold sample_aes_crypt. rewrite map_map.
  rewrite <- (map_id src) at 2. apply map_ext. intros b. apply byte_xor_involutive.
Qed.

Definition sample_aes : AES := {|
  aes_Encrypt := sample_aes_crypt;
  aes_Decrypt := sample_aes_crypt;
  aes_Encrypt_len := sample_aes_crypt_len;
  aes_Decrypt_Encrypt := sample_aes_crypt_involutive
|}.

Lemma len_Z_to_be (n : nat) (z : Z) : len (Z_to_be n z) = Z.of_nat n.
Proof. unfold len, Z_to_be. now rewrite length_map, length_seq. Qed.

Definition sample_gcm_tag (key nonce ct : list byte) : list byte :=
  Z_to_be 16 (be_to_Z key + be_to_Z nonce + be_to_Z ct).

Definition sample_tag : GCMTag := {|
  gcm_tag := sample_gcm_tag;
  gcm_tag_len := fun key nonce ct => len_Z_to_be 16 _
|}.

(** ** Blocks and key streams *)

Lemma chunks_fuel (f1 : nat) : forall (f2 : nat) (s : list byte),
  (length s <= f1)%nat -> (length s <= f2)%nat -> chunks f1 s = chunks f2 s.
Proof.
  induction f1 as [|f1 IH]; intros f2 s H1 H2.
  - destruct s; [|simpl in H1; lia]. destruct f2; reflexivity.
  - destruct s as [|b s]; [destruct f2; reflexivity|].
    destruct f2 as [|f2]; [simpl in H2; lia|].
    cbn [chunks]. f_equal.
    apply IH; rewrite length_skipn; simpl in *; lia.
Qed.

Lemma blocks_nil : blocks [] = [].
Proof. reflexivity. Qed.

Lemma chunks_step (f : nat) (b : byte) (s : list byte) :
  chunks (S f) (b :: s) = firstn 16 (b :: s) :: chunks f (skipn 16 (b :: s)).
Proof. reflexivity. Qed.

Lemma blocks_app (c rest : list byte) : len c = 16 -> blocks (c ++ rest) = c :: blocks rest.
Proof.
  intros Hc. unfold len in Hc. assert (Hn : length c = 16%nat) by lia.
  unfold blocks. rewrite length_app, Hn.
  destruct c as [|c0 c']; [discriminate Hn|].
  change (16 + length rest)%nat with (S (15 + length rest)).
  change ((c0 :: c') ++ rest) with (c0 :: (c' ++ rest)).
  rewrite chunks_step.
  change (c0 :: (c' ++ rest)) with ((c0 :: c') ++ rest).
  rewrite firstn_app, skipn_app, Hn, Nat.sub_diag, firstn_all2, skipn_all2 by lia.
  rewrite firstn_O, skipn_O, app_nil_r. f_equal.
  apply chunks_fuel; lia.
Qed.

Lemma blocks_short (s : list byte) : 0 < len s <= 16 -> blocks s = [s].
Proof.
  intros Hs. unfold len in Hs. unfold blocks.
  destruct s as [|b s]; [simpl in Hs; lia|].
  change (length (b :: s)) with (S (length s)).
  rewrite chunks_step, firstn_all2, skipn_all2 by (simpl in *; lia).
  destruct (length s); reflexivity.
Qed.

Lemma length_xor_bytes (a b : list byte) :
  length (xor_bytes a b) = Nat.min (length a) (length b).
Proof. unfold xor_bytes. now rewrite length_map, length_combine. Qed.

Lemma len_xor_bytes (a b : list byte) : len a <= len b -> len (xor_bytes a b) = len a.
Proof. unfold len. rewrite length_xor_bytes. lia. Qed.

Lemma xor_bytes_involutive : forall a b : list byte,
  len a <= len b -> xor_bytes (xor_bytes a b) b = a.
Proof.
  unfold len. induction a as [|x a IH]; intros b Hab; [reflexivity|].
  destruct b as [|y b]; [simpl in Hab; lia|].
  unfold xor_bytes in *. cbn [combine map fst snd].
  rewrite byte_xor_involutive. f_equal. apply IH. simpl in Hab. lia.
Qed.

Lemma xor_key_stream_involutive (ks : nat -> byte) : forall (src : list byte) (pos : nat),
  xor_key_stream ks pos (xor_key_stream ks pos src) = src.
Proof.
  induction src as [|b src IH]; intros pos; [reflexivity|].
  cbn [xor_key_stream]. now rewrite byte_xor_involutive, IH.
Qed.

Lemma len_xor_key_stream (ks : nat -> byte) : forall (src : list byte) (pos : nat),
  len (xor_key_stream ks pos src) = len src.
Proof.
  unfold len. induction src as [|b src IH]; intros pos; [reflexivity|].
  cbn [xor_key_stream length]. f_equal. f_equal.
  specialize (IH (S pos)). lia.
Qed.

Lemma split_block (p : list byte) :
  (16 <= length p)%nat ->
  exists b p', p = b ++ p' /\ len b = 16 /\ length p' = (length p - 16)%nat.
Proof.
  intros Hp. exists (firstn 16 p), (skipn 16 p). split; [|split].
  - symmetry. apply firstn_skipn.
  - unfold len. rewrite length_firstn. lia.
  - apply length_skipn.
Qed.

Lemma Z_of_byte_of_Z (z : Z) : 0 <= z < 256 -> Z_of_byte (byte_of_Z z) = z.
Proof.
  intros Hz. unfold Z_of_byte, byte_of_Z. rewrite Z.mod_small by lia.
  destruct (Byte.of_N (Z.to_N z)) as [b|] eqn:Hb.
  - apply Byte.to_of_N in Hb. rewrite Hb. lia.
  - apply Byte.of_N_None_iff in Hb. lia.
Qed.

Lemma last_app_repeat (l : list byte) (x : byte) (m : nat) :
  last (l ++ repeat x (S m)) x00 = x.
Proof.
  cbn [repeat]. rewrite repeat_cons, app_assoc. apply last_last.
Qed.

Lemma forallb_repeat_eqb (x : byte) (m : nat) :
  forallb (fun b => Byte.eqb b x) (repeat x m) = true.
Proof.
  induction m as [|m IH]; [reflexivity|].
  cbn [repeat forallb]. rewrite IH, Byte.byte_dec_lb; reflexivity.
Qed.

(** ** PKCS#7 *)

Lemma pad_bounds (n a : Z) : 2 <= n -> 0 <= a ->
  1 <= n - a mod n <= n /\ (a + (n - a mod n)) mod n = 0.
Proof.
  intros Hn Ha. pose proof (Z.mod_pos_bound a n ltac:(lia)) as Hm.
  split; [lia|].
  pose proof (Z.div_mod a n ltac:(lia)) as Hd.
  replace (a + (n - a mod n)) with ((a / n + 1) * n) by lia.
  apply Z.mod_mul. lia.
Qed.

Lemma pkcs7_Unpad_Pad (n : Z) (buf : list byte) : 2 <= n <= 255 ->
  exists padded,
    pkcs7_Pad n buf = Returns padded /\
    len padded mod n = 0 /\
    pkcs7_Unpad n padded = Returns (buf, None).
Proof.
  intros Hn. unfold pkcs7_Pad, pkcs7_Unpad.
  assert (Hbad : (n <=? 1) || (n >=? 256) = false).
  { apply orb_false_iff. split; [apply Z.leb_gt; lia|].
    rewrite Z.geb_leb. apply Z.leb_gt. lia. }
  rewrite Hbad.
  destruct (pad_bounds n (len buf) ltac:(lia) (len_nonneg buf)) as [Hpad Hmod].
  set (padding := n - len buf mod n) in *.
  set (pb := byte_of_Z padding).
  eexists. split; [reflexivity|].
  assert (Hlen : len (buf ++ repeat pb (Z.to_nat padding)) = len buf + padding).
  { rewrite len_app. unfold len at 2. rewrite repeat_length. lia. }
  rewrite Hlen. split; [exact Hmod|].
  pose proof (len_nonneg buf) as Hb.
  destruct (Z.eqb_spec (len buf + padding) 0) as [H0|_]; [lia|].
  rewrite Hmod. cbn [Z.eqb negb].
  destruct (Z.to_nat padding) as [|m] eqn:Hm; [lia|].
  rewrite last_app_repeat.
  assert (Hpb : Z_of_byte pb = padding) by (apply Z_of_byte_of_Z; lia).
  rewrite !Hpb.
  destruct (Z.gtb_spec padding n) as [Hgt|_]; [lia|].
  destruct (Z.eqb_spec padding 0) as [Hz|_]; [lia|].
  replace (len buf + padding - padding) with (len buf) by lia.
  rewrite slice_from_app, slice_to_app. fold pb.
  rewrite (forallb_repeat_eqb pb (S m)). reflexivity.
Qed.

(** ** The modes undo themselves *)

Section ModeFacts.

Context {aes : AES} {tag : GCMTag}.

Lemma cbc_blocks_roundtrip (key : list byte) : aes_key_size key = true ->
  forall (n : nat) (p iv : list byte),
    length p = (16 * n)%nat -> len iv = 16 ->
    cbc_decrypt_blocks key iv (blocks (cbc_encrypt_blocks key iv (blocks p))) = p.
Proof.
  intros Hkey. induction n as [|n IH]; intros p iv Hp Hiv.
  - destruct p; [reflexivity | simpl in Hp; lia].
  - destruct (split_block p) as (b & p' & -> & Hb & Hp'); [lia|].
    rewrite blocks_app by exact Hb. cbn [cbc_encrypt_blocks].
    assert (Hx : len (xor_bytes b iv) = 16) by (rewrite len_xor_bytes; lia).
    pose proof (aes_Encrypt_len key _ Hx) as Hc.
    rewrite blocks_app by exact Hc. cbn [cbc_decrypt_blocks].
    rewrite aes_Decrypt_Encrypt by assumption.
    rewrite xor_bytes_involutive by lia.
    f_equal. apply IH; [lia | exact Hc].
Qed.

Lemma cfb_blocks_roundtrip (key : list byte) :
  forall (n : nat) (p iv : list byte),
    (length p <= 16 * n)%nat -> len iv = 16 ->
    cfb_decrypt_blocks key iv (blocks (cfb_encrypt_blocks key iv (blocks p))) = p.
Proof.
  induction n as [|n IH]; intros p iv Hp Hiv.
  - destruct p; [reflexivity | simpl in Hp; lia].
  - pose proof (aes_Encrypt_len key iv Hiv) as Hks.
    destruct (Nat.le_gt_cases (length p) 16) as [Hshort|Hlong].
    + destruct p as [|x p]; [reflexivity|].
      assert (Hlen : 0 < len (x :: p) <= 16) by (unfold len; simpl in *; lia).
      rewrite (blocks_short (x :: p)) by exact Hlen. cbn [cfb_encrypt_blocks].
      rewrite app_nil_r.
      rewrite blocks_short by (rewrite len_xor_bytes; lia).
      cbn [cfb_decrypt_blocks]. rewrite app_nil_r.
      apply xor_bytes_involutive. lia.
    + destruct (split_block p) as (b & p' & -> & Hb & Hp'); [lia|].
      rewrite blocks_app by exact Hb. cbn [cfb_encrypt_blocks].
      assert (Hc : len (xor_bytes b (aes_Encrypt key iv)) = 16)
        by (rewrite len_xor_bytes; lia).
      rewrite blocks_app by exact Hc. cbn [cfb_decrypt_blocks].
      rewrite xor_bytes_involutive by lia.
      f_equal. apply IH; [lia | exact Hc].
Qed.

Lemma Open_Seal (g : cipher_AEAD) (nonce plaintext : list byte) :
  len nonce = 12 ->
  exists sealed,
    Seal g nonce plaintext = Returns sealed /\
    Open g nonce sealed = Returns (Ok plaintext).
Proof.
  intros Hn. unfold Seal, Open, gcmStandardNonceSize, gcmTagSize.
  rewrite Hn. cbn [Z.eqb Pos.eqb negb].
  eexists. split; [reflexivity|].
  set (ks := key_stream_of (gcm_block (aead_key g) nonce)).
  set (ct := xor_key_stream ks 0 plaintext).
  pose proof (gcm_tag_len (aead_key g) nonce ct) as Ht.
  pose proof (len_nonneg ct) as Hct.
  rewrite len_app, Ht.
  destruct (Z.ltb_spec (len ct + 16) 16) as [Hlt|_]; [lia|].
  replace (len ct + 16 - 16) with (len ct) by lia.
  rewrite slice_from_app, slice_to_app.
  destruct (list_eq_dec Byte.byte_eq_dec (gcm_tag (aead_key g) nonce ct)
                        (gcm_tag (aead_key g) nonce ct)) as [_|Hne];
    [|contradiction].
  unfold ct. rewrite xor_key_stream_involutive. reflexivity.
Qed.

End ModeFacts.

(** ** The ciphers *)

Section CipherFacts.

Context {scrypt : Scrypt} {aes : AES} {tag : GCMTag}.
Variable codec : StringCodec.
Variable DefaultSalt : string.

Lemma aes_NewCipher_ok (key : list byte) :
  aes_key_size key = true -> aes_NewCipher key = Ok {| block_key := key |}.
Proof. unfold aes_NewCipher, aes_key_size. intros ->. reflexivity. Qed.

Lemma aes_NewCipher_err (key : list byte) :
  aes_key_size key = false -> aes_NewCipher key = Err (aes_KeySizeError (len key)).
Proof. unfold aes_NewCipher, aes_key_size. intros ->. reflexivity. Qed.

Lemma copy_into_zeroed_exact (n : Z) (src : list byte) :
  len src = n -> copy_into_zeroed n src = src.
Proof.
  intros Hn. unfold copy_into_zeroed, slice_to. subst n. unfold len.
  rewrite Nat2Z.id, firstn_all, Z.sub_diag. apply app_nil_r.
Qed.

Lemma not_aligned (z : Z) : z mod 16 <> 0 -> negb (z mod aes_BlockSize =? 0) = true.
Proof.
  intros Hz. unfold aes_BlockSize. apply negb_true_iff. apply Z.eqb_neq. exact Hz.
Qed.

Lemma aligned (z : Z) : z mod 16 = 0 -> negb (z mod aes_BlockSize =? 0) = false.
Proof.
  intros Hz. unfold aes_BlockSize. rewrite Hz. reflexivity.
Qed.

Lemma cbc_Encrypt_unaligned (c : cbc) (plainText : string) :
  len (list_byte_of_string plainText) mod 16 <> 0 ->
  cbc_Encrypt codec c plainText = (EmptyString, Some ErrPlaintextBlockSize).
Proof.
  intros Hp. unfold cbc_Encrypt, cbc_Encrypt_body.
  rewrite (not_aligned _ Hp). reflexivity.
Qed.

Lemma cbc_Encrypt_ok (c : cbc) (plainText : string) :
  aes_key_size (Key_Bytes (cbc_key c)) = true ->
  len (Key_Bytes (cbc_iv c)) = 16 ->
  len (list_byte_of_string plainText) mod 16 = 0 ->
  cbc_Encrypt codec c plainText =
  (EncodeToString codec
     (Key_Bytes (cbc_iv c)
      ++ cbc_encrypt_blocks (Key_Bytes (cbc_key c)) (Key_Bytes (cbc_iv c))
           (blocks (list_byte_of_string plainText))), None).
Proof.
  intros Hkey Hiv Hp. unfold cbc_Encrypt, cbc_Encrypt_body.
  rewrite (aligned _ Hp), (aes_NewCipher_ok _ Hkey).
  unfold cipher_NewCBCEncrypter, CryptBlocks. rewrite Hiv.
  cbn [aes_BlockSize Z.eqb Pos.eqb negb obind crypt block_key].
  rewrite (aligned _ Hp), Z.ltb_irrefl.
  rewrite (copy_into_zeroed_exact 16) by exact Hiv. reflexivity.
Qed.

Lemma cbc_Decrypt_short (c : cbc) (cipherText : string) (ciphertext : list byte) :
  DecodeString codec cipherText = (ciphertext, None) ->
  aes_key_size (Key_Bytes (cbc_key c)) = true ->
  len ciphertext < 16 ->
  cbc_Decrypt codec c cipherText = (EmptyString, Some ErrCipherTextTooShort).
Proof.
  intros Hd Hkey Hlen. unfold cbc_Decrypt, cbc_Decrypt_body.
  rewrite Hd, (aes_NewCipher_ok _ Hkey).
  unfold aes_BlockSize. destruct (Z.ltb_spec (len ciphertext) 16); [reflexivity | lia].
Qed.

Lemma cbc_Decrypt_unaligned (c : cbc) (cipherText : string) (ciphertext : list byte) :
  DecodeString codec cipherText = (ciphertext, None) ->
  aes_key_size (Key_Bytes (cbc_key c)) = true ->
  16 <= len ciphertext -> len ciphertext mod 16 <> 0 ->
  cbc_Decrypt codec c cipherText = (EmptyString, Some ErrCipherTextBlockSize).
Proof.
  intros Hd Hkey Hlen Hmod. unfold cbc_Decrypt, cbc_Decrypt_body.
  rewrite Hd, (aes_NewCipher_ok _ Hkey), (not_aligned _ Hmod).
  unfold aes_BlockSize. destruct (Z.ltb_spec (len ciphertext) 16); [lia | reflexivity].
Qed.

Lemma div16_aligned (z : Z) : z mod 16 = 0 -> (z - 16) mod 16 = 0.
Proof.
  intros Hz. replace (z - 16) with (z + (-1) * 16) by lia.
  rewrite Z.mod_add by lia. exact Hz.
Qed.

Lemma cbc_Decrypt_ok (c : cbc) (cipherText : string) (ciphertext : list byte) :
  DecodeString codec cipherText = (ciphertext, None) ->
  aes_key_size (Key_Bytes (cbc_key c)) = true ->
  16 <= len ciphertext -> len ciphertext mod 16 = 0 ->
  cbc_Decrypt codec c cipherText =
  (string_of_list_byte
     (cbc_decrypt_blocks (Key_Bytes (cbc_key c)) (slice_to 16 ciphertext)
        (blocks (slice_from 16 ciphertext))), None).
Proof.
  intros Hd Hkey Hlen Hmod. unfold cbc_Decrypt, cbc_Decrypt_body.
  rewrite Hd, (aes_NewCipher_ok _ Hkey), (aligned _ Hmod).
  unfold aes_BlockSize. destruct (Z.ltb_spec (len ciphertext) 16) as [|_]; [lia|].
  unfold cipher_NewCBCDecrypter, CryptBlocks, aes_BlockSize.
  rewrite len_slice_to by lia.
  cbn [Z.eqb Pos.eqb negb obind crypt block_key].
  rewrite len_slice_from by lia.
  rewrite (div16_aligned _ Hmod), Z.ltb_irrefl. reflexivity.
Qed.

(** C4.  CBC [Encrypt] answers [ErrPlaintextBlockSize] whenever the
    plaintext is no multiple of 16 bytes long.  CBC [Decrypt] of a decodable
    ciphertext under a valid key answers [ErrCipherTextTooShort] when the
    decoded ciphertext is shorter than 16 bytes, and when its length is no
    multiple of 16 it answers an error: [ErrCipherTextBlockSize], unless it
    is also shorter than 16 bytes, the check that comes first.  The string
    returned with each of these errors is empty. *)
Theorem cbc_size_errors (c : cbc) (plainText cipherText : string) (ciphertext : list byte) :
  (len (list_byte_of_string plainText) mod 16 <> 0 ->
   cbc_Encrypt codec c plainText = (EmptyString, Some ErrPlaintextBlockSize)) /\
  (DecodeString codec cipherText = (ciphertext, None) ->
   aes_key_size (Key_Bytes (cbc_key c)) = true ->
   (len ciphertext < 16 ->
    cbc_Decrypt codec c cipherText = (EmptyString, Some ErrCipherTextTooShort)) /\
   (len ciphertext mod 16 <> 0 ->
    cbc_Decrypt codec c cipherText =
    (EmptyString, Some (if len ciphertext <? 16 then ErrCipherTextTooShort
                        else ErrCipherTextBlockSize)))).
Proof.
  split; [apply cbc_Encrypt_unaligned|].
  intros Hd Hkey. split; [now apply cbc_Decrypt_short|].
  intros Hmod. destruct (Z.ltb_spec (len ciphertext) 16).
  - now apply cbc_Decrypt_short with ciphertext.
  - now apply cbc_Decrypt_unaligned with ciphertext.
Qed.

(** C5.  CBC [Decrypt] does not depend on the IV the instance was built
    with: two instances with the same key and any two IVs return the same
    result on every ciphertext string.  On a decodable ciphertext of at least
    16 bytes and a multiple of 16 bytes, under a valid key, the result is the
    CBC decryption of the bytes after the first 16 with those first 16 bytes
    as the IV. *)
Theorem cbc_Decrypt_ignores_instance_iv (key iv1 iv2 : Key) (cipherText : string) :
  Decrypt codec (NewCBC key iv1) cipherText = Decrypt codec (NewCBC key iv2) cipherText /\
  (forall ciphertext,
     DecodeString codec cipherText = (ciphertext, None) ->
     aes_key_size (Key_Bytes key) = true ->
     16 <= len ciphertext -> len ciphertext mod 16 = 0 ->
     Decrypt codec (NewCBC key iv1) cipherText =
     (string_of_list_byte
        (cbc_decrypt_blocks (Key_Bytes key) (slice_to 16 ciphertext)
           (blocks (slice_from 16 ciphertext))), None)).
Proof.
  split; [reflexivity|].
  intros ciphertext Hd Hkey Hlen Hmod.
  apply (cbc_Decrypt_ok {| cbc_key := key; cbc_iv := iv1 |} _ _ Hd Hkey Hlen Hmod).
Qed.

(** *** Streams *)

Lemma io_ReadFull_short (r : Reader) :
  len r < 16 ->
  exists got rest e,
    io_ReadFull r aes_BlockSize = (got, rest, Some e) /\
    (e = io_EOF \/ e = io_ErrUnexpectedEOF) /\
    (r = [] -> e = io_EOF).
Proof.
  intros Hr. unfold io_ReadFull, aes_BlockSize.
  destruct (Z.leb_spec 16 (len r)) as [|_]; [lia|].
  destruct (Z.eqb_spec (len r) 0) as [H0|Hn0].
  - exists [], r, io_EOF. auto.
  - exists r, [], io_ErrUnexpectedEOF. repeat split; auto.
    intros ->. now rewrite len_nil in Hn0.
Qed.

Lemma io_ReadFull_block (iv rest : list byte) :
  len iv = 16 -> io_ReadFull (iv ++ rest) aes_BlockSize = (iv, rest, None).
Proof.
  intros Hiv. unfold io_ReadFull, aes_BlockSize.
  pose proof (len_nonneg rest) as Hr.
  rewrite len_app. destruct (Z.leb_spec 16 (len iv + len rest)) as [_|]; [|lia].
  rewrite <- Hiv, slice_to_app, slice_from_app. reflexivity.
Qed.

Lemma steam_DecryptStream_short (s : steam) (cipherText : Reader) (plainText : Writer) :
  len cipherText < 16 ->
  exists e,
    steam_DecryptStream s cipherText plainText = (plainText, Some (Errorf_w_w ErrCopy e)) /\
    (cipherText = [] -> e = io_EOF).
Proof.
  intros Hlen. destruct (io_ReadFull_short cipherText Hlen) as (got & rest & e & Hr & _ & He).
  exists e. split; [|exact He].
  unfold steam_DecryptStream, steam_DecryptStream_body. rewrite Hr. reflexivity.
Qed.

Lemma errors_Is_ErrCopy (e : error) : errors_Is (Errorf_w_w ErrCopy e) ErrCopy = true.
Proof. reflexivity. Qed.

Lemma errors_Is_ErrPanic (v : string) : errors_Is (Errorf_w_v ErrPanic v) ErrPanic = true.
Proof. reflexivity. Qed.

Lemma streamToBlock_Decrypt_short (s : streamToBlock) (cipherText : string)
    (cipherTextBytes : list byte) :
  DecodeString codec cipherText = (cipherTextBytes, None) ->
  len cipherTextBytes < 16 ->
  exists e,
    streamToBlock_Decrypt codec s cipherText = (EmptyString, Some (Errorf_w_w ErrCopy e)) /\
    (cipherTextBytes = [] -> e = io_EOF).
Proof.
  intros Hd Hlen.
  destruct (steam_DecryptStream_short (Stream s) cipherTextBytes [] Hlen) as (e & He & H0).
  exists e. split; [|exact H0].
  unfold streamToBlock_Decrypt, streamToBlock_Decrypt_body. rewrite Hd, He. reflexivity.
Qed.

(** C10.  For a cipher over the stream adapter, whatever its key, IV and
    key stream, [Decrypt] of a ciphertext string whose decoded form has
    fewer than 16 bytes returns the empty string with an error that wraps
    [ErrCopy] (around [io.EOF] when the decoded form is empty), never a
    plaintext without an error.  So it is for [NewCFB], [NewOFB], [NewCTR]
    and the simple variants, and for the empty string under a codec that
    decodes it to no bytes. *)
Theorem streamToBlock_Decrypt_short_is_ErrCopy
    (s : streamToBlock) (cipherText : string) (cipherTextBytes : list byte) :
  DecodeString codec cipherText = (cipherTextBytes, None) ->
  len cipherTextBytes < 16 ->
  (exists e,
     Decrypt codec (CipherStreamToBlock s) cipherText = (EmptyString, Some e) /\
     errors_Is e ErrCopy = true) /\
  snd (Decrypt codec (CipherStreamToBlock s) cipherText) <> None /\
  (cipherTextBytes = [] ->
   Decrypt codec (CipherStreamToBlock s) cipherText
   = (EmptyString, Some (Errorf_w_w ErrCopy io_EOF))).
Proof.
  intros Hd Hlen.
  destruct (streamToBlock_Decrypt_short s cipherText cipherTextBytes Hd Hlen)
    as (e & He & H0).
  cbn [Decrypt]. rewrite He. split; [|split].
  - eexists. split; [reflexivity | apply errors_Is_ErrCopy].
  - discriminate.
  - intros Hnil. rewrite (H0 Hnil). reflexivity.
Qed.

(** *** GCM *)

Lemma gcm_Encrypt_bad_key (g : gcm) (plainText : string) :
  aes_key_size (Key_Bytes (gcm_key g)) = false ->
  gcm_Encrypt codec g plainText
  = (EmptyString, Some (aes_KeySizeError (len (Key_Bytes (gcm_key g))))).
Proof.
  intros Hkey. unfold gcm_Encrypt, gcm_Encrypt_body.
  rewrite (aes_NewCipher_err _ Hkey). reflexivity.
Qed.

Lemma gcm_nonce_check (nonce : list byte) :
  negb (len nonce =? gcmStandardNonceSize) = negb (len nonce =? 12).
Proof. reflexivity. Qed.

Lemma gcm_Encrypt_bad_nonce (g : gcm) (plainText : string) :
  aes_key_size (Key_Bytes (gcm_key g)) = true ->
  len (Key_Bytes (gcm_nonce g)) <> 12 ->
  gcm_Encrypt codec g plainText
  = (EmptyString,
     Some (Errorf_w_v ErrPanic "crypto/cipher: incorrect nonce length given to GCM")).
Proof.
  intros Hkey Hn. unfold gcm_Encrypt, gcm_Encrypt_body.
  rewrite (aes_NewCipher_ok _ Hkey). cbn [cipher_NewGCM]. unfold Seal.
  rewrite gcm_nonce_check. apply Z.eqb_neq in Hn. rewrite Hn. reflexivity.
Qed.

Lemma gcm_Encrypt_ok (g : gcm) (plainText : string) :
  aes_key_size (Key_Bytes (gcm_key g)) = true ->
  len (Key_Bytes (gcm_nonce g)) = 12 ->
  exists sealed,
    gcm_Encrypt codec g plainText = (EncodeToString codec sealed, None) /\
    Open {| aead_key := Key_Bytes (gcm_key g) |} (Key_Bytes (gcm_nonce g)) sealed
    = Returns (Ok (list_byte_of_string plainText)).
Proof.
  intros Hkey Hn.
  destruct (Open_Seal {| aead_key := Key_Bytes (gcm_key g) |} (Key_Bytes (gcm_nonce g))
              (list_byte_of_string plainText) Hn) as (sealed & Hs & Ho).
  exists sealed. split; [|exact Ho].
  unfold gcm_Encrypt, gcm_Encrypt_body.
  rewrite (aes_NewCipher_ok _ Hkey). cbn [cipher_NewGCM block_key].
  rewrite Hs. reflexivity.
Qed.

Lemma gcm_Decrypt_needs_key_and_nonce (g : gcm) (cipherText : string) :
  snd (gcm_Decrypt codec g cipherText) = None ->
  aes_key_size (Key_Bytes (gcm_key g)) = true /\ len (Key_Bytes (gcm_nonce g)) = 12.
Proof.
  unfold gcm_Decrypt, gcm_Decrypt_body.
  destruct (DecodeString codec cipherText) as [ciphertext [e|]]; [discriminate|].
  destruct (aes_key_size (Key_Bytes (gcm_key g))) eqn:Hkey.
  - rewrite (aes_NewCipher_ok _ Hkey). cbn [cipher_NewGCM]. unfold Open.
    rewrite gcm_nonce_check.
    destruct (Z.eqb_spec (len (Key_Bytes (gcm_nonce g))) 12) as [Hn|Hn];
      [intros _; split; [reflexivity | exact Hn] | discriminate].
  - rewrite (aes_NewCipher_err _ Hkey). discriminate.
Qed.

(** *** An error comes with an empty result *)

Ltac split_body :=
  repeat match goal with
         | |- context [match ?x with _ => _ end] => destruct x eqn:?
         end;
  cbn [fst snd deferred recoverFromPanic recoverPanic obind] in *;
  try reflexivity; try congruence.

Lemma pkcs7_Unpad_error (n : Z) (buf plaintext : list byte) (e : error) :
  pkcs7_Unpad n buf = Returns (plaintext, Some e) -> plaintext = [].
Proof. unfold pkcs7_Unpad. split_body. Qed.

Lemma cbc_Encrypt_error (c : cbc) (plainText : string) :
  snd (cbc_Encrypt codec c plainText) <> None ->
  fst (cbc_Encrypt codec c plainText) = EmptyString.
Proof.
  unfold cbc_Encrypt, cbc_Encrypt_body, cipher_NewCBCEncrypter, CryptBlocks. split_body.
Qed.

Lemma cbc_Decrypt_error (c : cbc) (cipherText : string) :
  snd (cbc_Decrypt codec c cipherText) <> None ->
  fst (cbc_Decrypt codec c cipherText) = EmptyString.
Proof.
  unfold cbc_Decrypt, cbc_Decrypt_body, cipher_NewCBCDecrypter, CryptBlocks. split_body.
Qed.

Lemma gcm_Encrypt_error (g : gcm) (plainText : string) :
  snd (gcm_Encrypt codec g plainText) <> None ->
  fst (gcm_Encrypt codec g plainText) = EmptyString.
Proof. unfold gcm_Encrypt, gcm_Encrypt_body, cipher_NewGCM, Seal. split_body. Qed.

Lemma gcm_Decrypt_error (g : gcm) (cipherText : string) :
  snd (gcm_Decrypt codec g cipherText) <> None ->
  fst (gcm_Decrypt codec g cipherText) = EmptyString.
Proof. unfold gcm_Decrypt, gcm_Decrypt_body, cipher_NewGCM, Open. split_body. Qed.

Lemma Encrypt_error (c : Cipher) (plainText : string) :
  snd (Encrypt codec c plainText) <> None -> fst (Encrypt codec c plainText) = EmptyString.
Proof.
  destruct c as [c|c|s|g]; cbn [Encrypt].
  - apply cbc_Encrypt_error.
  - unfold simpleCBC_Encrypt, simpleCBC_Encrypt_body.
    destruct (pkcs7_Pad _ _) as [padded|v]; cbn [obind deferred recoverFromPanic fst snd];
      [|reflexivity].
    pose proof (cbc_Encrypt_error (simpleCBC_cbc c) (string_of_list_byte padded)) as H.
    destruct (cbc_Encrypt codec (simpleCBC_cbc c) (string_of_list_byte padded)) as [res err].
    exact H.
  - unfold streamToBlock_Encrypt, streamToBlock_Encrypt_body. split_body.
  - apply gcm_Encrypt_error.
Qed.

Lemma Decrypt_error (c : Cipher) (cipherText : string) :
  snd (Decrypt codec c cipherText) <> None -> fst (Decrypt codec c cipherText) = EmptyString.
Proof.
  destruct c as [c|c|s|g]; cbn [Decrypt].
  - apply cbc_Decrypt_error.
  - unfold simpleCBC_Decrypt, simpleCBC_Decrypt_body.
    destruct (cbc_Decrypt codec (simpleCBC_cbc c) cipherText) as [paddedText [e|]];
      [reflexivity|].
    destruct (pkcs7_Unpad _ _) as [[plaintext [e|]]|v] eqn:Hu;
      cbn [obind deferred recoverFromPanic fst snd]; try reflexivity; try congruence.
    apply pkcs7_Unpad_error in Hu. subst plaintext. reflexivity.
  - unfold streamToBlock_Decrypt, streamToBlock_Decrypt_body. split_body.
  - apply gcm_Decrypt_error.
Qed.

Lemma aes_key_size_cases (key : list byte) :
  aes_key_size key = true <-> len key = 16 \/ len key = 24 \/ len key = 32.
Proof.
  unfold aes_key_size. rewrite !orb_true_iff, !Z.eqb_eq. tauto.
Qed.

Lemma gcm_Decrypt_undecodable (g : gcm) (cipherText : string) (ct : list byte) (e : error) :
  DecodeString codec cipherText = (ct, Some e) ->
  gcm_Decrypt codec g cipherText = (EmptyString, Some e).
Proof. intros Hd. unfold gcm_Decrypt, gcm_Decrypt_body. rewrite Hd. reflexivity. Qed.

Lemma gcm_Decrypt_bad_key (g : gcm) (cipherText : string) (ct : list byte) :
  DecodeString codec cipherText = (ct, None) ->
  aes_key_size (Key_Bytes (gcm_key g)) = false ->
  gcm_Decrypt codec g cipherText
  = (EmptyString, Some (aes_KeySizeError (len (Key_Bytes (gcm_key g))))).
Proof.
  intros Hd Hkey. unfold gcm_Decrypt, gcm_Decrypt_body.
  rewrite Hd, (aes_NewCipher_err _ Hkey). reflexivity.
Qed.

Lemma gcm_Decrypt_bad_nonce (g : gcm) (cipherText : string) (ct : list byte) :
  DecodeString codec cipherText = (ct, None) ->
  aes_key_size (Key_Bytes (gcm_key g)) = true ->
  len (Key_Bytes (gcm_nonce g)) <> 12 ->
  gcm_Decrypt codec g cipherText
  = (EmptyString,
     Some (Errorf_w_v ErrPanic "crypto/cipher: incorrect nonce length given to GCM")).
Proof.
  intros Hd Hkey Hn. unfold gcm_Decrypt, gcm_Decrypt_body.
  rewrite Hd, (aes_NewCipher_ok _ Hkey). cbn [cipher_NewGCM]. unfold Open.
  rewrite gcm_nonce_check. apply Z.eqb_neq in Hn. rewrite Hn. reflexivity.
Qed.

Lemma gcm_Decrypt_bad_lengths (g : gcm) (cipherText : string) :
  ~ (aes_key_size (Key_Bytes (gcm_key g)) = true /\ len (Key_Bytes (gcm_nonce g)) = 12) ->
  fst (gcm_Decrypt codec g cipherText) = EmptyString /\
  snd (gcm_Decrypt codec g cipherText) <> None.
Proof.
  intros Hbad.
  assert (Herr : snd (gcm_Decrypt codec g cipherText) <> None).
  { intros Hok. apply Hbad. now apply gcm_Decrypt_needs_key_and_nonce with cipherText. }
  split; [now apply gcm_Decrypt_error | exact Herr].
Qed.

(** C6, as the code has it.  GCM [Encrypt] succeeds exactly when the key is
    16, 24 or 32 bytes long and the nonce is 12 bytes long, and [Decrypt]
    succeeds only then.  For a key of any other length and for a nonce of
    any other length both methods return an error and the empty string.
    Which error: [Encrypt] returns the [KeySizeError] of [aes.NewCipher]
    for the key and, under a key of valid length, the recovered panic of
    [Seal] for the nonce; [Decrypt] returns the codec's error when the
    ciphertext string does not decode, and for one that decodes the
    [KeySizeError] for the key and, under a key of valid length, the
    recovered panic of [Open] for the nonce. *)
Theorem gcm_key_and_nonce_lengths (g : gcm) (plainText cipherText : string) :
  let valid_key := len (Key_Bytes (gcm_key g)) = 16 \/ len (Key_Bytes (gcm_key g)) = 24 \/
                   len (Key_Bytes (gcm_key g)) = 32 in
  let valid_nonce := len (Key_Bytes (gcm_nonce g)) = 12 in
  let nonce_panic :=
    Errorf_w_v ErrPanic "crypto/cipher: incorrect nonce length given to GCM" in
  (snd (Encrypt codec (CipherGCM g) plainText) = None <-> valid_key /\ valid_nonce) /\
  (snd (Decrypt codec (CipherGCM g) cipherText) = None -> valid_key /\ valid_nonce) /\
  (~ (valid_key /\ valid_nonce) ->
   fst (Encrypt codec (CipherGCM g) plainText) = EmptyString /\
   snd (Encrypt codec (CipherGCM g) plainText) <> None /\
   fst (Decrypt codec (CipherGCM g) cipherText) = EmptyString /\
   snd (Decrypt codec (CipherGCM g) cipherText) <> None) /\
  (~ valid_key ->
   Encrypt codec (CipherGCM g) plainText
   = (EmptyString, Some (aes_KeySizeError (len (Key_Bytes (gcm_key g)))))) /\
  (valid_key -> ~ valid_nonce ->
   Encrypt codec (CipherGCM g) plainText = (EmptyString, Some nonce_panic)) /\
  (forall ct e, DecodeString codec cipherText = (ct, Some e) ->
   Decrypt codec (CipherGCM g) cipherText = (EmptyString, Some e)) /\
  (forall ct, DecodeString codec cipherText = (ct, None) ->
   (~ valid_key ->
    Decrypt codec (CipherGCM g) cipherText
    = (EmptyString, Some (aes_KeySizeError (len (Key_Bytes (gcm_key g)))))) /\
   (valid_key -> ~ valid_nonce ->
    Decrypt codec (CipherGCM g) cipherText = (EmptyString, Some nonce_panic))) /\
  (snd (Encrypt codec (CipherGCM g) plainText) <> None ->
   fst (Encrypt codec (CipherGCM g) plainText) = EmptyString) /\
  (snd (Decrypt codec (CipherGCM g) cipherText) <> None ->
   fst (Decrypt codec (CipherGCM g) cipherText) = EmptyString).
Proof.
  intros valid_key valid_nonce nonce_panic. subst valid_key valid_nonce nonce_panic.
  cbn [Encrypt Decrypt]. rewrite <- !aes_key_size_cases.
  assert (Henc : snd (gcm_Encrypt codec g plainText) = None <->
                 aes_key_size (Key_Bytes (gcm_key g)) = true /\
                 len (Key_Bytes (gcm_nonce g)) = 12).
  { split.
    - intros Hok. destruct (aes_key_size (Key_Bytes (gcm_key g))) eqn:Hkey.
      + split; [reflexivity|].
        destruct (Z.eq_dec (len (Key_Bytes (gcm_nonce g))) 12) as [Hn|Hn]; [exact Hn|].
        rewrite (gcm_Encrypt_bad_nonce g plainText Hkey Hn) in Hok. discriminate Hok.
      + rewrite (gcm_Encrypt_bad_key g plainText Hkey) in Hok. discriminate Hok.
    - intros [Hkey Hn].
      destruct (gcm_Encrypt_ok g plainText Hkey Hn) as (sealed & -> & _). reflexivity. }
  assert (Hfalse : forall b : bool, b <> true -> b = false)
    by (intros [|] Hb; [now contradiction Hb | reflexivity]).
  split; [exact Henc|].
  split; [apply gcm_Decrypt_needs_key_and_nonce|].
  split.
  { intros Hbad.
    assert (He : snd (gcm_Encrypt codec g plainText) <> None)
      by (intros Hok; apply Hbad, Henc, Hok).
    split; [now apply gcm_Encrypt_error|]. split; [exact He|].
    now apply gcm_Decrypt_bad_lengths. }
  split; [intros Hkey; apply gcm_Encrypt_bad_key, Hfalse, Hkey|].
  split; [apply gcm_Encrypt_bad_nonce|].
  split; [intros ct e Hd; now apply gcm_Decrypt_undecodable with ct|].
  split.
  { intros ct Hd. split.
    - intros Hkey. rewrite <- aes_key_size_cases in Hkey.
      apply gcm_Decrypt_bad_key with ct; [exact Hd | apply Hfalse, Hkey].
    - intros Hkey Hn. rewrite <- aes_key_size_cases in Hkey.
      now apply gcm_Decrypt_bad_nonce with ct. }
  split; [apply gcm_Encrypt_error | apply gcm_Decrypt_error].
Qed.

(** *** Stream builders and the adapter *)

Definition stream_inverse (b : cipherStreamBuilder) (key iv : list byte) : Prop :=
  exists enc dec : cipher_Stream,
    b key iv encrypt = Returns (Ok enc) /\
    b key iv decrypt = Returns (Ok dec) /\
    forall src, dec (enc src) = src.

Definition std_builder (b : cipherStreamBuilder) : Prop :=
  b = cfbStreamBuilder \/ b = ofbStreamBuilder \/ b = ctrStreamBuilder.

Lemma iv_check (iv : list byte) : len iv = 16 -> negb (len iv =? aes_BlockSize) = false.
Proof. intros ->. reflexivity. Qed.

Lemma std_builder_inverse (b : cipherStreamBuilder) (key iv : list byte) :
  std_builder b -> aes_key_size key = true -> len iv = 16 -> stream_inverse b key iv.
Proof.
  intros Hb Hkey Hiv. unfold stream_inverse.
  destruct Hb as [-> | [-> | ->]].
  - unfold cfbStreamBuilder. rewrite (aes_NewCipher_ok _ Hkey).
    unfold cipher_NewCFBEncrypter, cipher_NewCFBDecrypter. rewrite (iv_check _ Hiv).
    cbn [encrypt decrypt Z.eqb obind block_key].
    do 2 eexists. split; [reflexivity|]. split; [reflexivity|].
    intros src. apply (cfb_blocks_roundtrip key (length src)); [lia | exact Hiv].
  - unfold ofbStreamBuilder. rewrite (aes_NewCipher_ok _ Hkey).
    unfold cipher_NewOFB. rewrite (iv_check _ Hiv). cbn [obind block_key].
    do 2 eexists. split; [reflexivity|]. split; [reflexivity|].
    intros src. apply xor_key_stream_involutive.
  - unfold ctrStreamBuilder. rewrite (aes_NewCipher_ok _ Hkey).
    unfold cipher_NewCTR. rewrite (iv_check _ Hiv). cbn [obind block_key].
    do 2 eexists. split; [reflexivity|]. split; [reflexivity|].
    intros src. apply xor_key_stream_involutive.
Qed.

Lemma steam_roundtrip (s : steam) :
  stream_inverse (cipherStream s) (Key_Bytes (steam_key s)) (Key_Bytes (steam_iv s)) ->
  len (Key_Bytes (steam_iv s)) = 16 ->
  forall (plainText : Reader) (w w' : Writer),
  exists body,
    steam_EncryptStream s plainText w = (w ++ Key_Bytes (steam_iv s) ++ body, None) /\
    steam_DecryptStream s (Key_Bytes (steam_iv s) ++ body) w' = (w' ++ plainText, None).
Proof.
  intros (enc & dec & Henc & Hdec & Hinv) Hiv plainText w w'.
  exists (enc plainText). split.
  - unfold steam_EncryptStream, steam_EncryptStream_body. rewrite Henc.
    cbn [obind deferred recoverPanic recoverFromPanic Writer_Write io_Copy_StreamWriter].
    now rewrite <- app_assoc.
  - unfold steam_DecryptStream, steam_DecryptStream_body.
    rewrite (io_ReadFull_block _ _ Hiv), Hdec.
    cbn [obind deferred recoverPanic recoverFromPanic Writer_Write io_Copy_StreamReader].
    now rewrite Hinv.
Qed.

Context {lawful : LawfulCodec codec}.

Lemma streamToBlock_roundtrip (s : streamToBlock) (plainText : string) :
  stream_inverse (cipherStream (Stream s)) (Key_Bytes (steam_key (Stream s)))
                 (Key_Bytes (steam_iv (Stream s))) ->
  len (Key_Bytes (steam_iv (Stream s))) = 16 ->
  exists body,
    streamToBlock_Encrypt codec s plainText
    = (EncodeToString codec (Key_Bytes (steam_iv (Stream s)) ++ body), None) /\
    streamToBlock_Decrypt codec s
      (EncodeToString codec (Key_Bytes (steam_iv (Stream s)) ++ body))
    = (plainText, None).
Proof.
  intros Hinv Hiv.
  destruct (steam_roundtrip (Stream s) Hinv Hiv (list_byte_of_string plainText) [] [])
    as (body & He & Hd).
  exists body. split.
  - unfold streamToBlock_Encrypt, streamToBlock_Encrypt_body. rewrite He. reflexivity.
  - unfold streamToBlock_Decrypt, streamToBlock_Decrypt_body.
    rewrite decode_encode, Hd. cbn [app deferred recoverFromPanic].
    now rewrite string_of_list_byte_of_string.
Qed.

(** *** CBC and GCM round trips *)

Lemma aligned_blocks (p : list byte) :
  len p mod 16 = 0 -> exists n : nat, length p = (16 * n)%nat.
Proof.
  intros Hp. exists (Z.to_nat (len p / 16)).
  pose proof (Z.div_mod (len p) 16 ltac:(lia)) as Hd.
  pose proof (len_nonneg p) as H0. unfold len in *. lia.
Qed.

Lemma cbc_encrypt_blocks_length (key : list byte) :
  forall (n : nat) (p iv : list byte),
    length p = (16 * n)%nat -> len iv = 16 ->
    length (cbc_encrypt_blocks key iv (blocks p)) = (16 * n)%nat.
Proof.
  induction n as [|n IH]; intros p iv Hp Hiv.
  - destruct p; [reflexivity | simpl in Hp; lia].
  - destruct (split_block p) as (b & p' & -> & Hb & Hp'); [lia|].
    rewrite blocks_app by exact Hb. cbn [cbc_encrypt_blocks].
    assert (Hx : len (xor_bytes b iv) = 16) by (rewrite len_xor_bytes; lia).
    pose proof (aes_Encrypt_len key _ Hx) as Hc.
    rewrite length_app, (IH p' _); [unfold len in Hc; lia | lia | exact Hc].
Qed.

Lemma cbc_roundtrip (c : cbc) (plainText : string) :
  aes_key_size (Key_Bytes (cbc_key c)) = true ->
  len (Key_Bytes (cbc_iv c)) = 16 ->
  len (list_byte_of_string plainText) mod 16 = 0 ->
  exists body,
    cbc_Encrypt codec c plainText
    = (EncodeToString codec (Key_Bytes (cbc_iv c) ++ body), None) /\
    cbc_Decrypt codec c (EncodeToString codec (Key_Bytes (cbc_iv c) ++ body))
    = (plainText, None).
Proof.
  intros Hkey Hiv Hp. eexists. split; [apply cbc_Encrypt_ok; assumption|].
  destruct (aligned_blocks _ Hp) as [n Hn].
  set (p := list_byte_of_string plainText) in *.
  set (iv := Key_Bytes (cbc_iv c)) in *.
  set (key := Key_Bytes (cbc_key c)) in *.
  pose proof (cbc_encrypt_blocks_length key n p iv Hn Hiv) as Hlen.
  assert (Hbody : len (cbc_encrypt_blocks key iv (blocks p)) = 16 * Z.of_nat n)
    by (unfold len; lia).
  rewrite (cbc_Decrypt_ok c _ (iv ++ cbc_encrypt_blocks key iv (blocks p))).
  - fold key. rewrite <- Hiv at 1 2. rewrite slice_to_app, slice_from_app.
    rewrite (cbc_blocks_roundtrip key Hkey n p iv Hn Hiv).
    unfold p. now rewrite string_of_list_byte_of_string.
  - apply decode_encode.
  - exact Hkey.
  - rewrite len_app. lia.
  - rewrite len_app, Hiv, Hbody.
    replace (16 + 16 * Z.of_nat n) with ((1 + Z.of_nat n) * 16) by lia.
    apply Z.mod_mul. lia.
Qed.

Lemma simpleCBC_roundtrip (c : simpleCBC) (plainText : string) :
  aes_key_size (Key_Bytes (cbc_key (simpleCBC_cbc c))) = true ->
  len (Key_Bytes (cbc_iv (simpleCBC_cbc c))) = 16 ->
  exists body,
    simpleCBC_Encrypt codec c plainText
    = (EncodeToString codec (Key_Bytes (cbc_iv (simpleCBC_cbc c)) ++ body), None) /\
    simpleCBC_Decrypt codec c
      (EncodeToString codec (Key_Bytes (cbc_iv (simpleCBC_cbc c)) ++ body))
    = (plainText, None).
Proof.
  intros Hkey Hiv.
  destruct (pkcs7_Unpad_Pad 16 (list_byte_of_string plainText) ltac:(lia))
    as (padded & Hpad & Hmod & Hunpad).
  assert (Hp : len (list_byte_of_string (string_of_list_byte padded)) mod 16 = 0)
    by (now rewrite list_byte_of_string_of_list_byte).
  destruct (cbc_roundtrip (simpleCBC_cbc c) (string_of_list_byte padded) Hkey Hiv Hp)
    as (body & He & Hd).
  exists body. split.
  - unfold simpleCBC_Encrypt, simpleCBC_Encrypt_body, aes_BlockSize.
    rewrite Hpad. cbn [obind]. rewrite He. reflexivity.
  - unfold simpleCBC_Decrypt, simpleCBC_Decrypt_body, aes_BlockSize.
    rewrite Hd, list_byte_of_string_of_list_byte, Hunpad.
    cbn [obind deferred recoverFromPanic].
    now rewrite string_of_list_byte_of_string.
Qed.

Lemma gcm_roundtrip (g : gcm) (plainText : string) :
  aes_key_size (Key_Bytes (gcm_key g)) = true ->
  len (Key_Bytes (gcm_nonce g)) = 12 ->
  exists sealed,
    gcm_Encrypt codec g plainText = (EncodeToString codec sealed, None) /\
    gcm_Decrypt codec g (EncodeToString codec sealed) = (plainText, None).
Proof.
  intros Hkey Hn.
  destruct (gcm_Encrypt_ok g plainText Hkey Hn) as (sealed & He & Ho).
  exists sealed. split; [exact He|].
  unfold gcm_Decrypt, gcm_Decrypt_body.
  rewrite decode_encode, (aes_NewCipher_ok _ Hkey). cbn [cipher_NewGCM block_key].
  rewrite Ho. cbn [obind deferred recoverFromPanic].
  now rewrite string_of_list_byte_of_string.
Qed.

(** *** Instances of the simple constructors *)

Lemma NewRandomIv_len (E : Entropy) : len (Key_Bytes (NewRandomIv DefaultSalt E)) = 16.
Proof.
  unfold NewRandomIv. destruct (rand_Read_err E).
  - apply NewIv_default_len.
  - cbn [Bytes Key_Bytes]. unfold len. now rewrite length_map, length_seq.
Qed.

Lemma NewAesKey_valid (passphrase : string) :
  aes_key_size (Key_Bytes (NewAesKey DefaultSalt passphrase [])) = true.
Proof.
  apply aes_key_size_cases. rewrite NewAesKey_default_len. auto.
Qed.

(** What a cipher and a plaintext must satisfy for the mode to apply: a key
    of 16, 24 or 32 bytes, an IV of 16 bytes (a nonce of 12 for GCM), one of
    the three key streams of the stream file under the adapter, and for plain CBC
    a plaintext of whole blocks. *)
Definition well_keyed (c : Cipher) (plainText : string) : Prop :=
  match c with
  | CipherCBC c =>
      aes_key_size (Key_Bytes (cbc_key c)) = true /\
      len (Key_Bytes (cbc_iv c)) = 16 /\
      len (list_byte_of_string plainText) mod 16 = 0
  | CipherSimpleCBC c =>
      aes_key_size (Key_Bytes (cbc_key (simpleCBC_cbc c))) = true /\
      len (Key_Bytes (cbc_iv (simpleCBC_cbc c))) = 16
  | CipherStreamToBlock s =>
      aes_key_size (Key_Bytes (steam_key (Stream s))) = true /\
      len (Key_Bytes (steam_iv (Stream s))) = 16 /\
      std_builder (cipherStream (Stream s))
  | CipherGCM g =>
      aes_key_size (Key_Bytes (gcm_key g)) = true /\
      len (Key_Bytes (gcm_nonce g)) = 12
  end.

(** The IV (or nonce) an instance holds. *)
Definition instance_iv (c : Cipher) : list byte :=
  match c with
  | CipherCBC c => Key_Bytes (cbc_iv c)
  | CipherSimpleCBC c => Key_Bytes (cbc_iv (simpleCBC_cbc c))
  | CipherStreamToBlock s => Key_Bytes (steam_iv (Stream s))
  | CipherGCM g => Key_Bytes (gcm_nonce g)
  end.

Definition roundtrips (c : Cipher) (plainText : string) : Prop :=
  exists cipherText,
    Encrypt codec c plainText = (cipherText, None) /\
    Decrypt codec c cipherText = (plainText, None).

Lemma well_keyed_roundtrips (c : Cipher) (plainText : string) :
  well_keyed c plainText -> roundtrips c plainText.
Proof.
  unfold roundtrips. destruct c as [c|c|s|g]; cbn [well_keyed Encrypt Decrypt].
  - intros (Hkey & Hiv & Hp).
    destruct (cbc_roundtrip c plainText Hkey Hiv Hp) as (body & He & Hd). eauto.
  - intros (Hkey & Hiv).
    destruct (simpleCBC_roundtrip c plainText Hkey Hiv) as (body & He & Hd). eauto.
  - intros (Hkey & Hiv & Hb).
    destruct (streamToBlock_roundtrip s plainText
                (std_builder_inverse _ _ _ Hb Hkey Hiv) Hiv) as (body & He & Hd).
    eauto.
  - intros (Hkey & Hn).
    destruct (gcm_roundtrip g plainText Hkey Hn) as (sealed & He & Hd). eauto.
Qed.

Lemma New_stream_ciphers_well_keyed (key iv : Key) (plainText : string) :
  aes_key_size (Key_Bytes key) = true -> len (Key_Bytes iv) = 16 ->
  well_keyed (NewCFB key iv) plainText /\
  well_keyed (NewOFB key iv) plainText /\
  well_keyed (NewCTR key iv) plainText.
Proof.
  intros Hkey Hiv.
  unfold NewCFB, NewOFB, NewCTR, newStreamToBlock, NewCFBStream, NewOFBStream, NewCTRStream,
    well_keyed, std_builder.
  cbn [Stream steam_key steam_iv cipherStream]. repeat split; auto.
Qed.

Lemma Simple_ciphers_well_keyed (E : Entropy) (keyPassphrase plainText : string) :
  well_keyed (SimpleCBC DefaultSalt E keyPassphrase) plainText /\
  well_keyed (SimpleCFB DefaultSalt E keyPassphrase) plainText /\
  well_keyed (SimpleOFB DefaultSalt E keyPassphrase) plainText /\
  well_keyed (SimpleCTR DefaultSalt E keyPassphrase) plainText.
Proof.
  pose proof (NewAesKey_valid keyPassphrase) as Hkey.
  pose proof (NewRandomIv_len E) as Hiv.
  split; [exact (conj Hkey Hiv)|].
  apply New_stream_ciphers_well_keyed; assumption.
Qed.

Lemma SimpleGCM_well_keyed (keyPassphrase noncePassphrase plainText : string) :
  well_keyed (SimpleGCM DefaultSalt keyPassphrase noncePassphrase) plainText.
Proof.
  split; [apply NewAesKey_valid | apply NewNonce_default_len].
Qed.

(** C1.  [Decrypt(Encrypt(p))] on one instance returns [p] and no error:
    for every cipher with a key of 16, 24 or 32 bytes and an IV of 16 bytes
    (nonce of 12 for GCM), and every plaintext ([NewCBC]: of whole 16-byte
    blocks); so for [NewCBC], [NewCFB], [NewOFB], [NewCTR], [NewGCM] under
    these conditions and for [SimpleCBC], [SimpleCFB], [SimpleOFB],
    [SimpleCTR], [SimpleGCM] with every passphrase and plaintext. *)
Theorem Decrypt_Encrypt_roundtrip :
  (forall c plainText, well_keyed c plainText -> roundtrips c plainText) /\
  (forall key iv plainText,
     aes_key_size (Key_Bytes key) = true -> len (Key_Bytes iv) = 16 ->
     (len (list_byte_of_string plainText) mod 16 = 0 ->
      roundtrips (NewCBC key iv) plainText) /\
     roundtrips (NewCFB key iv) plainText /\
     roundtrips (NewOFB key iv) plainText /\
     roundtrips (NewCTR key iv) plainText) /\
  (forall key nonce plainText,
     aes_key_size (Key_Bytes key) = true -> len (Key_Bytes nonce) = 12 ->
     roundtrips (NewGCM key nonce) plainText) /\
  (forall E keyPassphrase plainText,
     roundtrips (SimpleCBC DefaultSalt E keyPassphrase) plainText /\
     roundtrips (SimpleCFB DefaultSalt E keyPassphrase) plainText /\
     roundtrips (SimpleOFB DefaultSalt E keyPassphrase) plainText /\
     roundtrips (SimpleCTR DefaultSalt E keyPassphrase) plainText) /\
  (forall keyPassphrase noncePassphrase plainText,
     roundtrips (SimpleGCM DefaultSalt keyPassphrase noncePassphrase) plainText).
Proof.
  split; [exact well_keyed_roundtrips|].
  split; [|split; [|split]].
  - intros key iv plainText Hkey Hiv.
    destruct (New_stream_ciphers_well_keyed key iv plainText Hkey Hiv) as (Hcfb & Hofb & Hctr).
    split; [|auto using well_keyed_roundtrips].
    intros Hp. apply well_keyed_roundtrips. cbn. auto.
  - intros key nonce plainText Hkey Hn. apply well_keyed_roundtrips. cbn. auto.
  - intros E keyPassphrase plainText.
    destruct (Simple_ciphers_well_keyed E keyPassphrase plainText)
      as (Hcbc & Hcfb & Hofb & Hctr).
    auto using well_keyed_roundtrips.
  - intros. apply well_keyed_roundtrips, SimpleGCM_well_keyed.
Qed.

(** *** The IV block of the output *)

(** The first 16 bytes of the decoded output. *)
Definition iv_block (cipherText : string) : list byte :=
  slice_to 16 (fst (DecodeString codec cipherText)).

Lemma iv_block_encoded (iv body : list byte) :
  len iv = 16 -> iv_block (EncodeToString codec (iv ++ body)) = iv.
Proof.
  intros Hiv. unfold iv_block. rewrite decode_encode. cbn [fst].
  rewrite <- Hiv. apply slice_to_app.
Qed.

Lemma Simple_Encrypt_iv_block (E : Entropy) (keyPassphrase plainText : string) (c : Cipher) :
  In c [SimpleCBC DefaultSalt E keyPassphrase; SimpleCFB DefaultSalt E keyPassphrase;
        SimpleOFB DefaultSalt E keyPassphrase; SimpleCTR DefaultSalt E keyPassphrase] ->
  snd (Encrypt codec c plainText) = None /\
  iv_block (fst (Encrypt codec c plainText)) = Key_Bytes (NewRandomIv DefaultSalt E).
Proof.
  pose proof (NewAesKey_valid keyPassphrase) as Hkey.
  pose proof (NewRandomIv_len E) as Hiv.
  assert (Hstream : forall b, std_builder b ->
            let s := {| Stream := {| steam_key := NewAesKey DefaultSalt keyPassphrase [];
                                     steam_iv := NewRandomIv DefaultSalt E;
                                     cipherStream := b |} |} in
            snd (streamToBlock_Encrypt codec s plainText) = None /\
            iv_block (fst (streamToBlock_Encrypt codec s plainText))
            = Key_Bytes (NewRandomIv DefaultSalt E)).
  { intros b Hb s.
    destruct (streamToBlock_roundtrip s plainText
                (std_builder_inverse _ _ _ Hb Hkey Hiv) Hiv) as (body & He & _).
    rewrite He. cbn [fst snd]. split; [reflexivity|].
    apply iv_block_encoded. exact Hiv. }
  unfold std_builder in Hstream.
  intros [<- | [<- | [<- | [<- | []]]]]; cbn [Encrypt SimpleCBC SimpleCFB SimpleOFB SimpleCTR
    newStreamToBlock SimpleCFBStream SimpleOFBStream SimpleCTRStream
    NewCFBStream NewOFBStream NewCTRStream].
  - destruct (simpleCBC_roundtrip
                {| simpleCBC_cbc := {| cbc_key := NewAesKey DefaultSalt keyPassphrase [];
                                       cbc_iv := NewRandomIv DefaultSalt E |} |}
                plainText Hkey Hiv) as (body & He & _).
    rewrite He. cbn [fst snd cbc_iv simpleCBC_cbc]. split; [reflexivity|].
    apply iv_block_encoded. exact Hiv.
  - apply Hstream. auto.
  - apply Hstream. auto.
  - apply Hstream. auto.
Qed.

(** What a call of [EncryptStream] appended to the writer [w]. *)
Definition emitted (w : Writer) (out : Writer * option error) : list byte :=
  slice_from (len w) (fst out).

Lemma Simple_EncryptStream_iv_block (E : Entropy) (keyPassphrase : string)
    (plainText : Reader) (w : Writer) (s : steam) :
  In s [SimpleCFBStream DefaultSalt E keyPassphrase; SimpleOFBStream DefaultSalt E keyPassphrase;
        SimpleCTRStream DefaultSalt E keyPassphrase] ->
  snd (steam_EncryptStream s plainText w) = None /\
  slice_to 16 (emitted w (steam_EncryptStream s plainText w))
  = Key_Bytes (NewRandomIv DefaultSalt E).
Proof.
  pose proof (NewAesKey_valid keyPassphrase) as Hkey.
  pose proof (NewRandomIv_len E) as Hiv.
  assert (Hstream : forall b, std_builder b ->
            let s0 := {| steam_key := NewAesKey DefaultSalt keyPassphrase [];
                         steam_iv := NewRandomIv DefaultSalt E;
                         cipherStream := b |} in
            snd (steam_EncryptStream s0 plainText w) = None /\
            slice_to 16 (emitted w (steam_EncryptStream s0 plainText w))
            = Key_Bytes (NewRandomIv DefaultSalt E)).
  { intros b Hb s0.
    destruct (steam_roundtrip s0 (std_builder_inverse _ _ _ Hb Hkey Hiv) Hiv plainText w [])
      as (body & He & _).
    rewrite He. unfold s0, emitted. cbn [fst snd steam_iv]. split; [reflexivity|].
    rewrite slice_from_app. rewrite <- Hiv. apply slice_to_app. }
  unfold std_builder in Hstream.
  intros [<- | [<- | [<- | []]]]; apply Hstream; auto.
Qed.

(** C7.  An instance made by a simple constructor holds the IV drawn when it
    was made: every [Encrypt] on [SimpleCBC], [SimpleCFB], [SimpleOFB] or
    [SimpleCTR], and every [EncryptStream] on a simple stream, succeeds and
    puts that same IV in the first 16 bytes of its (decoded) output, so any
    two calls on one instance emit the same IV block. *)
Theorem simple_instances_reuse_iv (E : Entropy) (keyPassphrase p1 p2 : string)
    (r1 r2 : Reader) (w1 w2 : Writer) :
  (forall c,
     In c [SimpleCBC DefaultSalt E keyPassphrase; SimpleCFB DefaultSalt E keyPassphrase;
           SimpleOFB DefaultSalt E keyPassphrase; SimpleCTR DefaultSalt E keyPassphrase] ->
     snd (Encrypt codec c p1) = None /\ snd (Encrypt codec c p2) = None /\
     iv_block (fst (Encrypt codec c p1)) = iv_block (fst (Encrypt codec c p2)) /\
     iv_block (fst (Encrypt codec c p1)) = Key_Bytes (NewRandomIv DefaultSalt E)) /\
  (forall s,
     In s [SimpleCFBStream DefaultSalt E keyPassphrase;
           SimpleOFBStream DefaultSalt E keyPassphrase;
           SimpleCTRStream DefaultSalt E keyPassphrase] ->
     snd (steam_EncryptStream s r1 w1) = None /\ snd (steam_EncryptStream s r2 w2) = None /\
     slice_to 16 (emitted w1 (steam_EncryptStream s r1 w1))
     = slice_to 16 (emitted w2 (steam_EncryptStream s r2 w2)) /\
     slice_to 16 (emitted w1 (steam_EncryptStream s r1 w1))
     = Key_Bytes (NewRandomIv DefaultSalt E)).
Proof.
  split.
  - intros c Hc.
    destruct (Simple_Encrypt_iv_block E keyPassphrase p1 c Hc) as [Ho1 Hi1].
    destruct (Simple_Encrypt_iv_block E keyPassphrase p2 c Hc) as [Ho2 Hi2].
    repeat split; congruence.
  - intros s Hs.
    destruct (Simple_EncryptStream_iv_block E keyPassphrase r1 w1 s Hs) as [Ho1 Hi1].
    destruct (Simple_EncryptStream_iv_block E keyPassphrase r2 w2 s Hs) as [Ho2 Hi2].
    repeat split; congruence.
Qed.

End CipherFacts.

(** ** Panics at the operation boundary *)

Section PanicFacts.

Context {scrypt : Scrypt} {aes : AES} {tag : GCMTag}.
Variable codec : StringCodec.

(** What the caller of a public method gets ([call]), against what the body
    of the method does behind its deferred recovery ([body]).  Either the
    body returns and the caller gets what it returned, *)
Definition returns_normally {T : Type} (body : outcome (T * option error))
    (call : T * option error) : Prop :=
  body = Returns call.

(** or the body panics with [v] and the caller gets the result variable as
    it stood ([res0]) and an error that wraps [ErrPanic] around [v]. *)
Definition panic_converted {T : Type} (body : outcome (T * option error))
    (call : T * option error) (res0 : T) (v : string) : Prop :=
  body = Panics v /\
  call = (res0, Some (Errorf_w_v ErrPanic v)) /\
  errors_Is (Errorf_w_v ErrPanic v) ErrPanic = true.

(** The second when [panicking] holds of the input, the first otherwise. *)
Definition at_boundary {T : Type} (panicking : bool) (v : string) (res0 : T)
    (body : outcome (T * option error)) (call : T * option error) : Prop :=
  if panicking then panic_converted body call res0 v else returns_normally body call.

(** The inputs on which a primitive of crypto/cipher panics: an IV that is
    not one block long, for [NewCBCEncrypter] once the plaintext and the key
    have passed their checks and for the three stream constructors once the
    key has; a nonce that is not 12 bytes long, for [Seal] and [Open] once
    the key (and, for [Open], the codec) has. *)
Definition cbc_Encrypt_panicking (key iv : Key) (plainText : string) : bool :=
  (len (list_byte_of_string plainText) mod 16 =? 0) &&
  aes_key_size (Key_Bytes key) && negb (len (Key_Bytes iv) =? 16).

Definition EncryptStream_panicking (key iv : Key) : bool :=
  aes_key_size (Key_Bytes key) && negb (len (Key_Bytes iv) =? 16).

Definition gcm_Encrypt_panicking (key nonce : Key) : bool :=
  aes_key_size (Key_Bytes key) && negb (len (Key_Bytes nonce) =? 12).

Definition gcm_Decrypt_panicking (key nonce : Key) (cipherText : string) : bool :=
  match snd (DecodeString codec cipherText) with
  | Some _ => false
  | None => aes_key_size (Key_Bytes key) && negb (len (Key_Bytes nonce) =? 12)
  end.

Lemma body_returns {T : Type} (res0 : T) (body : outcome (T * option error)) :
  (exists res, body = Returns res) ->
  returns_normally body (deferred recoverFromPanic res0 body).
Proof. intros [[res err] ->]. reflexivity. Qed.

Lemma body_panics {T : Type} (res0 : T) (body : outcome (T * option error)) (v : string) :
  body = Panics v ->
  panic_converted body (deferred recoverFromPanic res0 body) res0 v.
Proof. intros ->. split; [reflexivity|]. split; reflexivity. Qed.

Ltac returns_in_every_branch :=
  repeat match goal with
         | |- context [match ?x with _ => _ end] => destruct x
         end;
  cbn [obind]; eexists; reflexivity.

(** *** CBC *)

Lemma cbc_Encrypt_body_cases (c : cbc) (plainText : string) :
  if cbc_Encrypt_panicking (cbc_key c) (cbc_iv c) plainText
  then cbc_Encrypt_body codec c plainText
       = Panics "cipher.NewCBCEncrypter: IV length must equal block size"
  else exists res, cbc_Encrypt_body codec c plainText = Returns res.
Proof.
  unfold cbc_Encrypt_panicking, cbc_Encrypt_body, aes_BlockSize.
  destruct (len (list_byte_of_string plainText) mod 16 =? 0) eqn:Hp;
    cbn [negb andb]; [|eexists; reflexivity].
  destruct (aes_key_size (Key_Bytes (cbc_key c))) eqn:Hkey; cbn [andb].
  - rewrite (aes_NewCipher_ok _ Hkey). unfold cipher_NewCBCEncrypter, aes_BlockSize.
    destruct (negb (len (Key_Bytes (cbc_iv c)) =? 16)); [reflexivity|].
    cbn [obind]. unfold CryptBlocks, aes_BlockSize. rewrite Hp, Z.ltb_irrefl.
    cbn [negb obind]. eexists. reflexivity.
  - rewrite (aes_NewCipher_err _ Hkey). eexists. reflexivity.
Qed.

Lemma cbc_Decrypt_body_returns (c : cbc) (cipherText : string) :
  exists res, cbc_Decrypt_body codec c cipherText = Returns res.
Proof.
  unfold cbc_Decrypt_body, aes_BlockSize.
  destruct (DecodeString codec cipherText) as [ciphertext [e|]]; [eexists; reflexivity|].
  destruct (aes_NewCipher (Key_Bytes (cbc_key c))) as [block|e]; [|eexists; reflexivity].
  destruct (Z.ltb_spec (len ciphertext) 16) as [|Hlen]; [eexists; reflexivity|].
  destruct (len ciphertext mod 16 =? 0) eqn:Hmod; cbn [negb]; [|eexists; reflexivity].
  apply Z.eqb_eq in Hmod.
  unfold cipher_NewCBCDecrypter, aes_BlockSize.
  rewrite (len_slice_to 16 ciphertext) by lia. cbn [Z.eqb Pos.eqb negb obind].
  unfold CryptBlocks, aes_BlockSize.
  rewrite (len_slice_from 16 ciphertext) by lia.
  rewrite (div16_aligned _ Hmod), Z.ltb_irrefl. cbn [Z.eqb negb obind].
  eexists. reflexivity.
Qed.

(** *** SimpleCBC, whose padding is done with block size 16 *)

Lemma simpleCBC_Encrypt_body_returns (c : simpleCBC) (plainText : string) :
  exists res, simpleCBC_Encrypt_body codec c plainText = Returns res.
Proof. unfold simpleCBC_Encrypt_body, pkcs7_Pad. eexists. reflexivity. Qed.

Lemma simpleCBC_Decrypt_body_returns (c : simpleCBC) (cipherText : string) :
  exists res, simpleCBC_Decrypt_body codec c cipherText = Returns res.
Proof.
  unfold simpleCBC_Decrypt_body.
  destruct (cbc_Decrypt codec (simpleCBC_cbc c) cipherText) as [paddedText [e|]];
    [eexists; reflexivity|].
  unfold pkcs7_Unpad, aes_BlockSize.
  change ((16 <=? 1) || (16 >=? 256)) with false. cbv iota.
  returns_in_every_branch.
Qed.

(** *** The three streams and the adapter *)

Ltac stream_body_cases Hkey :=
  match goal with
  | |- context [aes_key_size ?k] =>
      destruct (aes_key_size k) eqn:Hkey; cbn [andb];
      [ rewrite (aes_NewCipher_ok _ Hkey)
      | rewrite (aes_NewCipher_err _ Hkey); cbn [obind]; eexists; reflexivity ]
  end.

Lemma CFB_EncryptStream_body_cases (key iv : Key) (r : Reader) (w : Writer) :
  if EncryptStream_panicking key iv
  then steam_EncryptStream_body (NewCFBStream key iv) r w
       = Panics "cipher.newCFB: IV length must equal block size"
  else exists res, steam_EncryptStream_body (NewCFBStream key iv) r w = Returns res.
Proof.
  unfold EncryptStream_panicking, steam_EncryptStream_body.
  cbn [NewCFBStream steam_key steam_iv cipherStream]. unfold cfbStreamBuilder.
  stream_body_cases Hkey.
  change (encrypt =? encrypt) with true. cbv iota.
  unfold cipher_NewCFBEncrypter, aes_BlockSize.
  destruct (negb (len (Key_Bytes iv) =? 16)); [reflexivity|].
  cbn [obind]. eexists. reflexivity.
Qed.

Lemma OFB_EncryptStream_body_cases (key iv : Key) (r : Reader) (w : Writer) :
  if EncryptStream_panicking key iv
  then steam_EncryptStream_body (NewOFBStream key iv) r w
       = Panics "cipher.NewOFB: IV length must equal block size"
  else exists res, steam_EncryptStream_body (NewOFBStream key iv) r w = Returns res.
Proof.
  unfold EncryptStream_panicking, steam_EncryptStream_body.
  cbn [NewOFBStream steam_key steam_iv cipherStream]. unfold ofbStreamBuilder.
  stream_body_cases Hkey.
  unfold cipher_NewOFB, aes_BlockSize.
  destruct (negb (len (Key_Bytes iv) =? 16)); [reflexivity|].
  cbn [obind]. eexists. reflexivity.
Qed.

Lemma CTR_EncryptStream_body_cases (key iv : Key) (r : Reader) (w : Writer) :
  if EncryptStream_panicking key iv
  then steam_EncryptStream_body (NewCTRStream key iv) r w
       = Panics "cipher.NewCTR: IV length must equal block size"
  else exists res, steam_EncryptStream_body (NewCTRStream key iv) r w = Returns res.
Proof.
  unfold EncryptStream_panicking, steam_EncryptStream_body.
  cbn [NewCTRStream steam_key steam_iv cipherStream]. unfold ctrStreamBuilder.
  stream_body_cases Hkey.
  unfold cipher_NewCTR, aes_BlockSize.
  destruct (negb (len (Key_Bytes iv) =? 16)); [reflexivity|].
  cbn [obind]. eexists. reflexivity.
Qed.

(** [DecryptStream] builds its key stream on the 16 bytes it has read. *)
Lemma DecryptStream_body_returns (s : steam) (r : Reader) (w : Writer) :
  std_builder (cipherStream s) ->
  exists res, steam_DecryptStream_body s r w = Returns res.
Proof.
  intros Hb. unfold steam_DecryptStream_body, io_ReadFull, aes_BlockSize.
  destruct (Z.leb_spec 16 (len r)) as [Hr|_];
    [|destruct (len r =? 0); eexists; reflexivity].
  pose proof (len_nonneg r) as H0.
  assert (Hiv : negb (len (slice_to 16 r) =? 16) = false)
    by (rewrite (len_slice_to 16 r) by lia; reflexivity).
  destruct Hb as [-> | [-> | ->]];
    [unfold cfbStreamBuilder | unfold ofbStreamBuilder | unfold ctrStreamBuilder];
    (destruct (aes_NewCipher (Key_Bytes (steam_key s))) as [block|e];
     [|cbn [obind]; eexists; reflexivity]).
  - change (decrypt =? encrypt) with false. change (decrypt =? decrypt) with true.
    cbv iota. unfold cipher_NewCFBDecrypter, aes_BlockSize. rewrite Hiv.
    cbn [obind]. eexists. reflexivity.
  - unfold cipher_NewOFB, aes_BlockSize. rewrite Hiv. cbn [obind]. eexists. reflexivity.
  - unfold cipher_NewCTR, aes_BlockSize. rewrite Hiv. cbn [obind]. eexists. reflexivity.
Qed.

Lemma stream_returns {T : Type} (res0 : T) (body : outcome (T * option error)) :
  (exists res, body = Returns res) ->
  returns_normally body (deferred recoverPanic res0 body).
Proof. intros [[res err] ->]. reflexivity. Qed.

Lemma stream_panics {T : Type} (res0 : T) (body : outcome (T * option error)) (v : string) :
  body = Panics v ->
  panic_converted body (deferred recoverPanic res0 body) res0 v.
Proof. intros ->. split; [reflexivity|]. split; reflexivity. Qed.

Lemma streamToBlock_Encrypt_body_returns (s : streamToBlock) (plainText : string) :
  exists res, streamToBlock_Encrypt_body codec s plainText = Returns res.
Proof.
  unfold streamToBlock_Encrypt_body.
  destruct (steam_EncryptStream (Stream s) _ _) as [buf [e|]]; eexists; reflexivity.
Qed.

Lemma streamToBlock_Decrypt_body_returns (s : streamToBlock) (cipherText : string) :
  exists res, streamToBlock_Decrypt_body codec s cipherText = Returns res.
Proof.
  unfold streamToBlock_Decrypt_body.
  destruct (DecodeString codec cipherText) as [ciphertext [e|]]; [eexists; reflexivity|].
  destruct (steam_DecryptStream (Stream s) _ _) as [buf [e|]]; eexists; reflexivity.
Qed.

(** The adapter hands on the error [EncryptStream] made of a panic. *)
Lemma streamToBlock_Encrypt_stream_panic (s : steam) (v : string) (plainText : string) :
  steam_EncryptStream_body s (list_byte_of_string plainText) [] = Panics v ->
  Encrypt codec (newStreamToBlock s) plainText = (EmptyString, Some (Errorf_w_v ErrPanic v)).
Proof.
  intros Hp. cbn [Encrypt newStreamToBlock].
  unfold streamToBlock_Encrypt, streamToBlock_Encrypt_body, steam_EncryptStream.
  cbn [Stream]. rewrite Hp. reflexivity.
Qed.

(** *** GCM *)

Lemma gcm_Encrypt_body_cases (g : gcm) (plainText : string) :
  if gcm_Encrypt_panicking (gcm_key g) (gcm_nonce g)
  then gcm_Encrypt_body codec g plainText
       = Panics "crypto/cipher: incorrect nonce length given to GCM"
  else exists res, gcm_Encrypt_body codec g plainText = Returns res.
Proof.
  unfold gcm_Encrypt_panicking, gcm_Encrypt_body.
  stream_body_cases Hkey.
  cbn [cipher_NewGCM]. unfold Seal, gcmStandardNonceSize.
  destruct (negb (len (Key_Bytes (gcm_nonce g)) =? 12)); [reflexivity|].
  cbn [obind]. eexists. reflexivity.
Qed.

Lemma gcm_Decrypt_body_cases (g : gcm) (cipherText : string) :
  if gcm_Decrypt_panicking (gcm_key g) (gcm_nonce g) cipherText
  then gcm_Decrypt_body codec g cipherText
       = Panics "crypto/cipher: incorrect nonce length given to GCM"
  else exists res, gcm_Decrypt_body codec g cipherText = Returns res.
Proof.
  unfold gcm_Decrypt_panicking, gcm_Decrypt_body.
  destruct (DecodeString codec cipherText) as [ciphertext [e|]]; cbn [snd];
    [eexists; reflexivity|].
  stream_body_cases Hkey.
  cbn [cipher_NewGCM]. unfold Open, gcmStandardNonceSize.
  destruct (negb (len (Key_Bytes (gcm_nonce g)) =? 12)); [reflexivity|].
  returns_in_every_branch.
Qed.

Lemma at_boundary_of_cases {T : Type} (panicking : bool) (v : string) (res0 : T)
    (body : outcome (T * option error)) :
  (if panicking then body = Panics v else exists res, body = Returns res) ->
  at_boundary panicking v res0 body (deferred recoverFromPanic res0 body).
Proof.
  unfold at_boundary. destruct panicking; [apply body_panics | apply body_returns].
Qed.

Lemma at_stream_boundary_of_cases {T : Type} (panicking : bool) (v : string) (res0 : T)
    (body : outcome (T * option error)) :
  (if panicking then body = Panics v else exists res, body = Returns res) ->
  at_boundary panicking v res0 body (deferred recoverPanic res0 body).
Proof.
  unfold at_boundary. destruct panicking; [apply stream_panics | apply stream_returns].
Qed.

(** C3.  Every public call returns a pair of a result and an error, and a
    panic of the primitives arrives as an error that wraps [ErrPanic],
    together with the empty string (for a stream, the writer as it was).
    Which inputs those are, for every cipher the package constructs:
    - [Encrypt] of CBC: an IV that is not 16 bytes long, when the plaintext
      is a whole number of blocks and the key is 16, 24 or 32 bytes long;
      on every other input the body returns and the caller gets its pair;
    - [Decrypt] of CBC, both methods of SimpleCBC, [DecryptStream] of the
      three streams and both methods of the stream adapter: no input; the
      body returns on every input;
    - [EncryptStream] of CFB, OFB and CTR: an IV that is not 16 bytes long,
      under a key of 16, 24 or 32 bytes; the adapter's [Encrypt] hands that
      error on with the empty string;
    - [Encrypt] and [Decrypt] of GCM: a nonce that is not 12 bytes long,
      under a key of 16, 24 or 32 bytes (and, for [Decrypt], a ciphertext
      string the codec accepts). *)
Theorem panics_are_returned_as_errors (key iv nonce : Key) (sc : simpleCBC) (s : steam)
    (text : string) (r : Reader) (w : Writer) :
  at_boundary (cbc_Encrypt_panicking key iv text)
    "cipher.NewCBCEncrypter: IV length must equal block size" EmptyString
    (Encrypt_body codec (NewCBC key iv) text) (Encrypt codec (NewCBC key iv) text) /\
  returns_normally (Decrypt_body codec (NewCBC key iv) text)
    (Decrypt codec (NewCBC key iv) text) /\
  returns_normally (Encrypt_body codec (CipherSimpleCBC sc) text)
    (Encrypt codec (CipherSimpleCBC sc) text) /\
  returns_normally (Decrypt_body codec (CipherSimpleCBC sc) text)
    (Decrypt codec (CipherSimpleCBC sc) text) /\
  at_boundary (EncryptStream_panicking key iv)
    "cipher.newCFB: IV length must equal block size" w
    (steam_EncryptStream_body (NewCFBStream key iv) r w)
    (steam_EncryptStream (NewCFBStream key iv) r w) /\
  at_boundary (EncryptStream_panicking key iv)
    "cipher.NewOFB: IV length must equal block size" w
    (steam_EncryptStream_body (NewOFBStream key iv) r w)
    (steam_EncryptStream (NewOFBStream key iv) r w) /\
  at_boundary (EncryptStream_panicking key iv)
    "cipher.NewCTR: IV length must equal block size" w
    (steam_EncryptStream_body (NewCTRStream key iv) r w)
    (steam_EncryptStream (NewCTRStream key iv) r w) /\
  (forall s', In s' [NewCFBStream key iv; NewOFBStream key iv; NewCTRStream key iv] ->
   returns_normally (steam_DecryptStream_body s' r w) (steam_DecryptStream s' r w)) /\
  returns_normally (Encrypt_body codec (newStreamToBlock s) text)
    (Encrypt codec (newStreamToBlock s) text) /\
  returns_normally (Decrypt_body codec (newStreamToBlock s) text)
    (Decrypt codec (newStreamToBlock s) text) /\
  (EncryptStream_panicking key iv = true ->
   Encrypt codec (NewCFB key iv) text
   = (EmptyString,
      Some (Errorf_w_v ErrPanic "cipher.newCFB: IV length must equal block size")) /\
   Encrypt codec (NewOFB key iv) text
   = (EmptyString,
      Some (Errorf_w_v ErrPanic "cipher.NewOFB: IV length must equal block size")) /\
   Encrypt codec (NewCTR key iv) text
   = (EmptyString,
      Some (Errorf_w_v ErrPanic "cipher.NewCTR: IV length must equal block size"))) /\
  at_boundary (gcm_Encrypt_panicking key nonce)
    "crypto/cipher: incorrect nonce length given to GCM" EmptyString
    (Encrypt_body codec (NewGCM key nonce) text) (Encrypt codec (NewGCM key nonce) text) /\
  at_boundary (gcm_Decrypt_panicking key nonce text)
    "crypto/cipher: incorrect nonce length given to GCM" EmptyString
    (Decrypt_body codec (NewGCM key nonce) text) (Decrypt codec (NewGCM key nonce) text).
Proof.
  split; [apply at_boundary_of_cases;
          apply (cbc_Encrypt_body_cases {| cbc_key := key; cbc_iv := iv |})|].
  split; [apply body_returns, cbc_Decrypt_body_returns|].
  split; [apply body_returns, simpleCBC_Encrypt_body_returns|].
  split; [apply body_returns, simpleCBC_Decrypt_body_returns|].
  split; [apply at_stream_boundary_of_cases, CFB_EncryptStream_body_cases|].
  split; [apply at_stream_boundary_of_cases, OFB_EncryptStream_body_cases|].
  split; [apply at_stream_boundary_of_cases, CTR_EncryptStream_body_cases|].
  split.
  { intros s' [<- | [<- | [<- | []]]]; apply stream_returns, DecryptStream_body_returns;
      unfold std_builder; cbn [cipherStream NewCFBStream NewOFBStream NewCTRStream]; auto. }
  split; [apply body_returns, streamToBlock_Encrypt_body_returns|].
  split; [apply body_returns, streamToBlock_Decrypt_body_returns|].
  split.
  { intros Hp.
    pose proof (CFB_EncryptStream_body_cases key iv (list_byte_of_string text) []) as Hcfb.
    pose proof (OFB_EncryptStream_body_cases key iv (list_byte_of_string text) []) as Hofb.
    pose proof (CTR_EncryptStream_body_cases key iv (list_byte_of_string text) []) as Hctr.
    rewrite Hp in Hcfb, Hofb, Hctr.
    split; [|split]; now apply streamToBlock_Encrypt_stream_panic. }
  split.
  - apply at_boundary_of_cases.
    apply (gcm_Encrypt_body_cases {| gcm_key := key; gcm_nonce := nonce |}).
  - apply at_boundary_of_cases.
    apply (gcm_Decrypt_body_cases {| gcm_key := key; gcm_nonce := nonce |}).
Qed.

End PanicFacts.

(** ** The theorems on concrete inputs

    The inputs are those of the package's fuzz seeds (block_test.go,
    aead_test.go), with the stand-in primitives and the hexadecimal codec. *)

#[local] Existing Instances sample_scrypt sample_aes sample_tag.

Definition key16 : Key := Bytes (list_byte_of_string "key0key1key2key3").
Definition key24 : Key := Bytes (list_byte_of_string "key0key1key2key3key4key5").
Definition iv16 : Key := Bytes (list_byte_of_string "iv00iv01iv02iv03").
Definition nonce12 : Key := Bytes (list_byte_of_string "nonce0nonce1").

(** An entropy source that delivers the bytes 'A', 'B', ... *)
Definition sample_entropy : Entropy := {|
  rand_Read_err := None;
  rand_Read_byte := fun i => byte_of_Z (65 + Z.of_nat i);
  Sprint_float_now := "0.6046602879796196 2024-10-01 12:00:00 +0000 UTC"
|}.

(** C4 at a plaintext of 10 bytes and at ciphertexts of 2 and of 17 bytes. *)
Lemma cbc_size_errors_witness :
  @cbc_Encrypt sample_scrypt sample_aes HexCodec {| cbc_key := key16; cbc_iv := iv16 |}
     "plain-text" = (EmptyString, Some ErrPlaintextBlockSize) /\
  @cbc_Decrypt sample_scrypt sample_aes HexCodec {| cbc_key := key16; cbc_iv := iv16 |}
     "00ff" = (EmptyString, Some ErrCipherTextTooShort) /\
  @cbc_Decrypt sample_scrypt sample_aes HexCodec {| cbc_key := key16; cbc_iv := iv16 |}
     "000102030405060708090a0b0c0d0e0f10" = (EmptyString, Some ErrCipherTextBlockSize).
Proof.
  destruct (@cbc_size_errors sample_scrypt sample_aes HexCodec
              {| cbc_key := key16; cbc_iv := iv16 |} "plain-text" "00ff"
              (fst (hex_Decode (list_byte_of_string "00ff")))) as [He Hd].
  destruct (@cbc_size_errors sample_scrypt sample_aes HexCodec
              {| cbc_key := key16; cbc_iv := iv16 |} "plain-text"
              "000102030405060708090a0b0c0d0e0f10"
              (fst (hex_Decode (list_byte_of_string "000102030405060708090a0b0c0d0e0f10"))))
    as [_ Hd'].
  split; [|split].
  - apply He. vm_compute. discriminate.
  - apply (proj1 (Hd eq_refl eq_refl)). vm_compute. reflexivity.
  - apply (proj2 (Hd' eq_refl eq_refl)). vm_compute. discriminate.
Defined.

(** C5 at the ciphertext of "plain-text-plain" under [key16] and [iv16],
    decrypted by an instance holding [iv16] and by one holding a 12-byte IV. *)
Lemma cbc_Decrypt_ignores_instance_iv_witness :
  @Decrypt sample_scrypt sample_aes sample_tag HexCodec (NewCBC key16 iv16)
     "6976303069763031697630326976303372713a326c302f3f7a6976296e7c3236"
  = ("plain-text-plain"%string, None) /\
  @Decrypt sample_scrypt sample_aes sample_tag HexCodec (NewCBC key16 nonce12)
     "6976303069763031697630326976303372713a326c302f3f7a6976296e7c3236"
  = ("plain-text-plain"%string, None).
Proof.
  destruct (@cbc_Decrypt_ignores_instance_iv sample_scrypt sample_aes sample_tag HexCodec
              key16 iv16 nonce12
              "6976303069763031697630326976303372713a326c302f3f7a6976296e7c3236")
    as [Hsame Hiv].
  rewrite <- Hsame.
  assert (H : @Decrypt sample_scrypt sample_aes sample_tag HexCodec (NewCBC key16 iv16)
                "6976303069763031697630326976303372713a326c302f3f7a6976296e7c3236"
              = ("plain-text-plain"%string, None)).
  { rewrite (Hiv (fst (hex_Decode (list_byte_of_string
                "6976303069763031697630326976303372713a326c302f3f7a6976296e7c3236"))));
      [reflexivity | reflexivity | reflexivity | vm_compute; discriminate | reflexivity]. }
  split; exact H.
Defined.

(** C10 at the empty string and at a ciphertext of 2 bytes. *)
Lemma streamToBlock_Decrypt_short_is_ErrCopy_witness :
  @Decrypt sample_scrypt sample_aes sample_tag HexCodec (NewCTR key16 iv16) ""
  = (EmptyString, Some (Errorf_w_w ErrCopy io_EOF)) /\
  snd (@Decrypt sample_scrypt sample_aes sample_tag HexCodec (NewCFB key16 iv16) "00ff")
  <> None.
Proof.
  split.
  - apply (@streamToBlock_Decrypt_short_is_ErrCopy sample_scrypt sample_aes sample_tag
             HexCodec {| Stream := NewCTRStream key16 iv16 |} "" [] eq_refl eq_refl).
    reflexivity.
  - apply (@streamToBlock_Decrypt_short_is_ErrCopy sample_scrypt sample_aes sample_tag
             HexCodec {| Stream := NewCFBStream key16 iv16 |} "00ff" [x00; xff]
             eq_refl eq_refl).
Defined.

(** C1 at the fuzz seeds, under the hexadecimal codec. *)
Lemma Decrypt_Encrypt_roundtrip_witness :
  LawfulCodec HexCodec /\
  @roundtrips sample_scrypt sample_aes sample_tag HexCodec (NewCBC key16 iv16)
     "plain-text-plain" /\
  @roundtrips sample_scrypt sample_aes sample_tag HexCodec (NewCFB key16 iv16)
     "plain-text-plain-text000" /\
  @roundtrips sample_scrypt sample_aes sample_tag HexCodec (NewGCM key24 nonce12)
     "plain-text-plain-text000" /\
  @roundtrips sample_scrypt sample_aes sample_tag HexCodec
     (SimpleCBC "testsalt" sample_entropy "key") "Hello, World!" /\
  @roundtrips sample_scrypt sample_aes sample_tag HexCodec
     (SimpleGCM "testsalt" "key" "nonce") "plaintext".
Proof.
  destruct (@Decrypt_Encrypt_roundtrip sample_scrypt sample_aes sample_tag HexCodec
              "testsalt" HexCodec_lawful) as (_ & Hnew & Hgcm & Hsimple & Hsgcm).
  split; [exact HexCodec_lawful|].
  split; [apply (Hnew key16 iv16 "plain-text-plain"%string eq_refl eq_refl); reflexivity|].
  split; [apply (Hnew key16 iv16 "plain-text-plain-text000"%string eq_refl eq_refl)|].
  split; [apply (Hgcm key24 nonce12 "plain-text-plain-text000"%string eq_refl eq_refl)|].
  split; [apply (Hsimple sample_entropy "key"%string "Hello, World!"%string) | apply Hsgcm].
Defined.

(** C7 at two plaintexts encrypted by one [SimpleCTR] instance. *)
Lemma simple_instances_reuse_iv_witness :
  LawfulCodec HexCodec /\
  iv_block HexCodec
    (fst (@Encrypt sample_scrypt sample_aes sample_tag HexCodec
            (SimpleCTR "testsalt" sample_entropy "key") "first"))
  = iv_block HexCodec
      (fst (@Encrypt sample_scrypt sample_aes sample_tag HexCodec
              (SimpleCTR "testsalt" sample_entropy "key") "second message")).
Proof.
  split; [exact HexCodec_lawful|].
  destruct (@simple_instances_reuse_iv sample_scrypt sample_aes sample_tag HexCodec
              "testsalt" HexCodec_lawful sample_entropy "key" "first" "second message"
              [] [] [] []) as [Hc _].
  apply (Hc (SimpleCTR "testsalt" sample_entropy "key")).
  cbn [In]. auto.
Defined.

(** C3 at a CBC instance and a CTR stream with a 12-byte IV and at a GCM
    instance with a 16-byte nonce, whose primitives panic, and at a CBC
    instance with a 16-byte IV, whose body returns. *)
Lemma panics_are_returned_as_errors_witness :
  @Encrypt sample_scrypt sample_aes sample_tag HexCodec (NewCBC key16 nonce12)
     "plain-text-plain"
  = (EmptyString,
     Some (Errorf_w_v ErrPanic "cipher.NewCBCEncrypter: IV length must equal block size")) /\
  @steam_EncryptStream sample_scrypt (NewCTRStream key16 nonce12)
     (list_byte_of_string "plain") []
  = ([], Some (Errorf_w_v ErrPanic "cipher.NewCTR: IV length must equal block size")) /\
  @Decrypt sample_scrypt sample_aes sample_tag HexCodec (NewGCM key16 iv16) "00ff"
  = (EmptyString,
     Some (Errorf_w_v ErrPanic "crypto/cipher: incorrect nonce length given to GCM")) /\
  @Encrypt_body sample_scrypt sample_aes sample_tag HexCodec (NewCBC key16 iv16)
     "plain-text-plain"
  = Returns (@Encrypt sample_scrypt sample_aes sample_tag HexCodec (NewCBC key16 iv16)
               "plain-text-plain").
Proof.
  destruct (@panics_are_returned_as_errors sample_scrypt sample_aes sample_tag HexCodec
              key16 nonce12 iv16 {| simpleCBC_cbc := {| cbc_key := key16; cbc_iv := iv16 |} |}
              (NewCTRStream key16 nonce12) "plain-text-plain"
              (list_byte_of_string "plain") [])
    as (Hcbc & _ & _ & _ & _ & _ & Hctr & _).
  destruct (@panics_are_returned_as_errors sample_scrypt sample_aes sample_tag HexCodec
              key16 iv16 iv16 {| simpleCBC_cbc := {| cbc_key := key16; cbc_iv := iv16 |} |}
              (NewCTRStream key16 iv16) "00ff" [] [])
    as (_ & _ & _ & _ & _ & _ & _ & _ & _ & _ & _ & _ & Hgcm).
  destruct (@panics_are_returned_as_errors sample_scrypt sample_aes sample_tag HexCodec
              key16 iv16 iv16 {| simpleCBC_cbc := {| cbc_key := key16; cbc_iv := iv16 |} |}
              (NewCTRStream key16 iv16) "plain-text-plain" [] [])
    as (Hok & _).
  split; [exact (proj1 (proj2 Hcbc))|].
  split; [exact (proj1 (proj2 Hctr))|].
  split; [exact (proj1 (proj2 Hgcm)) | exact Hok].
Defined.

(** C6 as stated fails: under a key of 24 bytes (neither 16 nor 32) and a
    nonce of 12 bytes GCM [Encrypt] returns a ciphertext and no error, with
    the stand-in primitives and with any others. *)
Lemma gcm_accepts_24_byte_key :
  @Encrypt sample_scrypt sample_aes sample_tag HexCodec (NewGCM key24 nonce12) "hi"
  = ("6d6d6b657932d9d4e796d095e7a3d9c94bd3"%string, None) /\
  ~ exists (scrypt : Scrypt) (aes : AES) (tag : GCMTag) (codec : StringCodec),
      snd (Encrypt codec (NewGCM key24 nonce12) "hi") <> None.
Proof.
  split; [reflexivity|].
  intros (scrypt & aes & tag & codec & Herr). apply Herr.
  destruct (gcm_Encrypt_ok codec {| gcm_key := key24; gcm_nonce := nonce12 |} "hi"
              eq_refl eq_refl) as (sealed & He & _).
  cbn [Encrypt NewGCM]. rewrite He. reflexivity.
Qed.

(** pkcs7_test.go: the padding vectors of [TestPad] and [TestUnpad], which
    the definitions of [pkcs7_Pad] and [pkcs7_Unpad] reproduce. *)
Example pkcs7_test_vectors :
  pkcs7_Pad 8 [] = Returns [x08; x08; x08; x08; x08; x08; x08; x08] /\
  pkcs7_Pad 8 (list_byte_of_string "12345")
  = Returns (list_byte_of_string "12345" ++ [x03; x03; x03]) /\
  pkcs7_Pad 16 (list_byte_of_string "a")
  = Returns (list_byte_of_string "a" ++ repeat x0f 15) /\
  pkcs7_Pad 1 [] = Panics "bad multiple" /\
  pkcs7_Pad 256 [] = Panics "bad multiple" /\
  pkcs7_Unpad 8 [] = Returns ([], Some ErrorPaddingNotFound) /\
  pkcs7_Unpad 8 (list_byte_of_string "123") = Returns ([], Some ErrorPaddingNotAMultiple) /\
  pkcs7_Unpad 8 (list_byte_of_string "1234567" ++ [xff])
  = Returns ([], Some ErrorPaddingTooLong) /\
  pkcs7_Unpad 8 (list_byte_of_string "1234567" ++ [x09])
  = Returns ([], Some ErrorPaddingTooLong) /\
  pkcs7_Unpad 8 (list_byte_of_string "1234567" ++ [x00])
  = Returns ([], Some ErrorPaddingTooShort) /\
  pkcs7_Unpad 8 (list_byte_of_string "123456" ++ [x01; x02])
  = Returns ([], Some ErrorPaddingNotAllTheSame) /\
  pkcs7_Unpad 8 [x07; x08; x08; x08; x08; x08; x08; x08]
  = Returns ([], Some ErrorPaddingNotAllTheSame) /\
  pkcs7_Unpad 1 [] = Panics "bad multiple" /\
  pkcs7_Unpad 256 [] = Panics "bad multiple".
Proof. repeat split; reflexivity. Qed.

(** * Further properties of the code *)

(** ** Codecs (encoding.go) *)

Lemma length_string_of_list_byte (l : list byte) :
  String.length (string_of_list_byte l) = length l.
Proof.
  unfold string_of_list_byte. induction l as [|b l IH]; [reflexivity|].
  cbn [map string_of_list_ascii String.length]. now rewrite IH.
Qed.

Lemma length_hex_Encode (src : list byte) : length (hex_Encode src) = (2 * length src)%nat.
Proof.
  unfold hex_Encode. induction src as [|v src IH]; [reflexivity|].
  cbn [flat_map app length]. rewrite IH. lia.
Qed.

Lemma hex_digit_in_table (v : byte) :
  In (hex_digit (Z.shiftr (Z_of_byte v) 4)) hextable /\
  In (hex_digit (Z.land (Z_of_byte v) 15)) hextable.
Proof. destruct v; vm_compute; intuition. Qed.

Lemma hex_Encode_digits (src : list byte) : Forall (fun c => In c hextable) (hex_Encode src).
Proof.
  induction src as [|v src IH]; [constructor|].
  destruct (hex_digit_in_table v) as [Hhi Hlo].
  change (hex_Encode (v :: src))
    with (hex_digit (Z.shiftr (Z_of_byte v) 4)
          :: hex_digit (Z.land (Z_of_byte v) 15) :: hex_Encode src).
  constructor; [exact Hhi|]. constructor; [exact Hlo | exact IH].
Qed.

(** X1.  The round trip [FuzzStringCodecs] tests, for the two codecs that
    are written out here: decoding what [NopCodec] or [HexCodec] encoded
    gives the bytes back with no error.  [NopCodec] is also the inverse the
    other way round and never fails; the hexadecimal form is twice as long
    as the bytes and made of the digits 0-9 and a-f only. *)
Theorem codec_round_trips (src : list byte) (s : string) :
  DecodeString NopCodec (EncodeToString NopCodec src) = (src, None) /\
  EncodeToString NopCodec (fst (DecodeString NopCodec s)) = s /\
  snd (DecodeString NopCodec s) = None /\
  DecodeString HexCodec (EncodeToString HexCodec src) = (src, None) /\
  String.length (EncodeToString HexCodec src) = (2 * length src)%nat /\
  Forall (fun c => In c hextable)
         (list_byte_of_string (EncodeToString HexCodec src)).
Proof.
  cbn [NopCodec HexCodec EncodeToString DecodeString fst snd].
  rewrite !list_byte_of_string_of_list_byte, string_of_list_byte_of_string.
  rewrite hex_Decode_Encode, length_string_of_list_byte, length_hex_Encode.
  repeat split. apply hex_Encode_digits.
Qed.

(** The upper-case form of a hexadecimal digit. *)
Definition hex_upper (c : byte) : byte :=
  if (97 <=? Z_of_byte c) && (Z_of_byte c <=? 102) then byte_of_Z (Z_of_byte c - 32) else c.

Lemma hex_digits_of_byte_upper (v : byte) :
  (reverseHexTable (hex_upper (hex_digit (Z.shiftr (Z_of_byte v) 4))) >? 15) = false /\
  (reverseHexTable (hex_upper (hex_digit (Z.land (Z_of_byte v) 15))) >? 15) = false /\
  byte_of_Z (Z.lor (Z.shiftl (reverseHexTable
                                (hex_upper (hex_digit (Z.shiftr (Z_of_byte v) 4)))) 4)
                   (reverseHexTable (hex_upper (hex_digit (Z.land (Z_of_byte v) 15))))) = v.
Proof. destruct v; vm_compute; repeat split; reflexivity. Qed.

Lemma hex_Decode_odd : forall (n : nat) (src : list byte),
  length src = S (2 * n) -> snd (hex_Decode src) <> None.
Proof.
  induction n as [|n IH]; intros src Hlen.
  - destruct src as [|p [|q rest]]; try discriminate Hlen.
    cbn [hex_Decode]. destruct (reverseHexTable p >? 15); discriminate.
  - destruct src as [|p [|q rest]]; try discriminate Hlen.
    rewrite hex_Decode_pair.
    destruct (reverseHexTable p >? 15); [discriminate|].
    destruct (reverseHexTable q >? 15); [discriminate|].
    specialize (IH rest ltac:(simpl in Hlen; lia)).
    destruct (hex_Decode rest) as [dst err]. exact IH.
Qed.

(** X2.  [HexCodec.DecodeString] takes upper-case digits as well: the
    upper-case form of an encoding decodes to the same bytes.  A string of
    odd length is never decoded without an error. *)
Theorem HexCodec_decodes_upper_case_rejects_odd_length (src : list byte) (s : string) :
  DecodeString HexCodec (string_of_list_byte (map hex_upper (hex_Encode src))) = (src, None) /\
  (Nat.odd (String.length s) = true -> snd (DecodeString HexCodec s) <> None).
Proof.
  cbn [HexCodec DecodeString]. split.
  - rewrite list_byte_of_string_of_list_byte.
    induction src as [|v src IH]; [reflexivity|].
    change (map hex_upper (hex_Encode (v :: src)))
      with (hex_upper (hex_digit (Z.shiftr (Z_of_byte v) 4))
            :: hex_upper (hex_digit (Z.land (Z_of_byte v) 15))
            :: map hex_upper (hex_Encode src)).
    rewrite hex_Decode_pair.
    destruct (hex_digits_of_byte_upper v) as (Hhi & Hlo & Hv).
    rewrite Hhi, Hlo, IH, Hv. reflexivity.
  - intros Hodd. apply Nat.odd_spec in Hodd. destruct Hodd as [n Hn].
    apply (hex_Decode_odd n).
    rewrite <- (string_of_list_byte_of_string s) in Hn.
    rewrite length_string_of_list_byte in Hn. lia.
Qed.

(** X2 at the upper-case ciphertext "00FF" and at the odd-length "abc". *)
Lemma HexCodec_decodes_upper_case_rejects_odd_length_witness :
  DecodeString HexCodec "00FF" = ([x00; xff], None) /\
  snd (DecodeString HexCodec "abc") <> None.
Proof.
  destruct (HexCodec_decodes_upper_case_rejects_odd_length [x00; xff] "abc") as [Hup Hodd].
  split; [exact Hup | apply Hodd; reflexivity].
Defined.

(** ** Errors of the ciphers *)

Section ErrorFacts.

Context {scrypt : Scrypt} {aes : AES} {tag : GCMTag}.
Variable codec : StringCodec.

Lemma cbc_Decrypt_undecodable (c : cbc) (cipherText : string) (b : list byte) (e : error) :
  DecodeString codec cipherText = (b, Some e) ->
  cbc_Decrypt codec c cipherText = (EmptyString, Some e).
Proof. intros Hd. unfold cbc_Decrypt, cbc_Decrypt_body. rewrite Hd. reflexivity. Qed.

(** X3.  Decoding comes first in every [Decrypt]: a ciphertext string the
    codec rejects is answered with the codec's error and the empty string,
    whatever the cipher, its key and its IV. *)
Theorem Decrypt_returns_the_codec_error (c : Cipher) (cipherText : string)
    (b : list byte) (e : error) :
  DecodeString codec cipherText = (b, Some e) ->
  Decrypt codec c cipherText = (EmptyString, Some e).
Proof.
  intros Hd. destruct c as [c|c|s|g]; cbn [Decrypt].
  - now apply cbc_Decrypt_undecodable with b.
  - unfold simpleCBC_Decrypt, simpleCBC_Decrypt_body.
    rewrite (cbc_Decrypt_undecodable (simpleCBC_cbc c) cipherText b e Hd). reflexivity.
  - unfold streamToBlock_Decrypt, streamToBlock_Decrypt_body. rewrite Hd. reflexivity.
  - unfold gcm_Decrypt, gcm_Decrypt_body. rewrite Hd. reflexivity.
Qed.

(** X4.  No partial output: whenever [Encrypt] of any cipher returns an
    error, the string it returns with it is empty, and so it is for
    [Decrypt] of CBC, of the stream adapter and of GCM.  ([Decrypt] of
    [SimpleCBC] hands on what [pkcs7.Unpad] returns and is left out.) *)
Theorem error_comes_with_empty_string (c : Cipher) (b : cbc) (s : streamToBlock) (g : gcm)
    (text : string) :
  (snd (Encrypt codec c text) <> None -> fst (Encrypt codec c text) = EmptyString) /\
  (forall d, In d [CipherCBC b; CipherStreamToBlock s; CipherGCM g] ->
   snd (Decrypt codec d text) <> None -> fst (Decrypt codec d text) = EmptyString).
Proof.
  split; [apply Encrypt_error|].
  intros d [<- | [<- | [<- | []]]]; apply Decrypt_error.
Qed.

(** X5.  CBC under a key that is not 16, 24 or 32 bytes long always fails,
    and the order of the checks shows: [Encrypt] looks at the plaintext
    first (a plaintext that is no multiple of 16 bytes gives
    [ErrPlaintextBlockSize], any other the [KeySizeError] of the key's
    length), [Decrypt] at the key first (every decodable ciphertext, also
    one that is too short, gives the [KeySizeError]). *)
Theorem cbc_invalid_key (key iv : Key) (plainText cipherText : string) (ciphertext : list byte) :
  aes_key_size (Key_Bytes key) = false ->
  Encrypt codec (NewCBC key iv) plainText
  = (EmptyString,
     Some (if len (list_byte_of_string plainText) mod 16 =? 0
           then aes_KeySizeError (len (Key_Bytes key))
           else ErrPlaintextBlockSize)) /\
  (DecodeString codec cipherText = (ciphertext, None) ->
   Decrypt codec (NewCBC key iv) cipherText
   = (EmptyString, Some (aes_KeySizeError (len (Key_Bytes key))))).
Proof.
  intros Hkey. cbn [Encrypt Decrypt NewCBC]. split.
  - unfold cbc_Encrypt, cbc_Encrypt_body. cbn [cbc_key cbc_iv]. unfold aes_BlockSize.
    destruct (len (list_byte_of_string plainText) mod 16 =? 0); [|reflexivity].
    cbn [negb]. rewrite (aes_NewCipher_err _ Hkey). reflexivity.
  - intros Hd. unfold cbc_Decrypt, cbc_Decrypt_body. cbn [cbc_key].
    rewrite Hd, (aes_NewCipher_err _ Hkey). reflexivity.
Qed.

Lemma std_builder_invalid_key (b : cipherStreamBuilder) (key iv : list byte)
    (direction : encryptOrDecrypt) :
  std_builder b -> aes_key_size key = false ->
  b key iv direction = Returns (Err (aes_KeySizeError (len key))).
Proof.
  intros Hb Hkey.
  destruct Hb as [-> | [-> | ->]];
    unfold cfbStreamBuilder, ofbStreamBuilder, ctrStreamBuilder;
    rewrite (aes_NewCipher_err _ Hkey); reflexivity.
Qed.

(** X6.  A stream cipher (CFB, OFB, CTR) under a key that is not 16, 24 or
    32 bytes long: [EncryptStream] writes nothing and returns
    [ErrNewAesCipher] wrapping the [KeySizeError]; so does [DecryptStream]
    once it could read 16 bytes of IV, and [Encrypt] of the string API
    returns that error with the empty string. *)
Theorem stream_invalid_key (s : steam) (plainText : string) (r : Reader) (w : Writer) :
  std_builder (cipherStream s) ->
  aes_key_size (Key_Bytes (steam_key s)) = false ->
  let err := Errorf_w_w ErrNewAesCipher (aes_KeySizeError (len (Key_Bytes (steam_key s)))) in
  steam_EncryptStream s r w = (w, Some err) /\
  (16 <= len r -> steam_DecryptStream s r w = (w, Some err)) /\
  Encrypt codec (newStreamToBlock s) plainText = (EmptyString, Some err) /\
  errors_Is err ErrNewAesCipher = true /\
  errors_Is err (aes_KeySizeError (len (Key_Bytes (steam_key s)))) = true.
Proof.
  intros Hb Hkey err.
  assert (He : forall r' w', steam_EncryptStream s r' w' = (w', Some err)).
  { intros r' w'. unfold steam_EncryptStream, steam_EncryptStream_body.
    rewrite (std_builder_invalid_key _ _ _ encrypt Hb Hkey). reflexivity. }
  split; [apply He|]. split; [|split; [|split]].
  - intros Hr. unfold steam_DecryptStream, steam_DecryptStream_body, io_ReadFull, aes_BlockSize.
    destruct (Z.leb_spec 16 (len r)) as [_|]; [|lia].
    rewrite (std_builder_invalid_key _ _ _ decrypt Hb Hkey). reflexivity.
  - cbn [Encrypt newStreamToBlock]. unfold streamToBlock_Encrypt, streamToBlock_Encrypt_body.
    cbn [Stream]. rewrite He. reflexivity.
  - reflexivity.
  - unfold err. cbn [errors_Is].
    destruct (error_eq_dec _ _) as [|_]; [reflexivity|].
    destruct (error_eq_dec ErrNewAesCipher _) as [|_]; [reflexivity|].
    destruct (error_eq_dec (aes_KeySizeError _) _) as [|Hne]; [|contradiction].
    apply orb_true_r.
Qed.

End ErrorFacts.

(** ** The layout of ciphertexts *)

Lemma slice_from_all {A : Type} (s : list A) : slice_from (len s) s = [].
Proof. unfold slice_from, len. rewrite Nat2Z.id. apply skipn_all. Qed.

Lemma slice_to_all {A : Type} (s : list A) : slice_to (len s) s = s.
Proof. unfold slice_to, len. rewrite Nat2Z.id. apply firstn_all. Qed.

Section LayoutFacts.

Context {scrypt : Scrypt} {aes : AES} {tag : GCMTag}.
Variable codec : StringCodec.
Variable DefaultSalt : string.

Lemma cfb_encrypt_blocks_len (key : list byte) :
  forall (n : nat) (p iv : list byte),
    (length p <= 16 * n)%nat -> len iv = 16 ->
    len (cfb_encrypt_blocks key iv (blocks p)) = len p.
Proof.
  induction n as [|n IH]; intros p iv Hp Hiv.
  - destruct p; [reflexivity | simpl in Hp; lia].
  - pose proof (aes_Encrypt_len key iv Hiv) as Hks.
    destruct (Nat.le_gt_cases (length p) 16) as [Hshort|Hlong].
    + destruct p as [|x p]; [reflexivity|].
      assert (Hlen : 0 < len (x :: p) <= 16) by (unfold len; simpl in *; lia).
      rewrite (blocks_short (x :: p)) by exact Hlen. cbn [cfb_encrypt_blocks].
      rewrite app_nil_r. apply len_xor_bytes. lia.
    + destruct (split_block p) as (b & p' & -> & Hb & Hp'); [lia|].
      rewrite blocks_app by exact Hb. cbn [cfb_encrypt_blocks].
      assert (Hc : len (xor_bytes b (aes_Encrypt key iv)) = 16)
        by (rewrite len_xor_bytes; lia).
      rewrite !len_app, Hc, Hb. f_equal. apply IH; [lia | exact Hc].
Qed.

Lemma cfb_decrypt_blocks_len (key : list byte) :
  forall (n : nat) (c iv : list byte),
    (length c <= 16 * n)%nat -> len iv = 16 ->
    len (cfb_decrypt_blocks key iv (blocks c)) = len c.
Proof.
  induction n as [|n IH]; intros c iv Hc Hiv.
  - destruct c; [reflexivity | simpl in Hc; lia].
  - pose proof (aes_Encrypt_len key iv Hiv) as Hks.
    destruct (Nat.le_gt_cases (length c) 16) as [Hshort|Hlong].
    + destruct c as [|x c]; [reflexivity|].
      assert (Hlen : 0 < len (x :: c) <= 16) by (unfold len; simpl in *; lia).
      rewrite (blocks_short (x :: c)) by exact Hlen. cbn [cfb_decrypt_blocks].
      rewrite app_nil_r. apply len_xor_bytes. lia.
    + destruct (split_block c) as (b & c' & -> & Hb & Hc'); [lia|].
      rewrite blocks_app by exact Hb. cbn [cfb_decrypt_blocks].
      rewrite !len_app, len_xor_bytes, Hb by lia. f_equal. apply IH; [lia | exact Hb].
Qed.

(** What the three key streams of the stream file give under a valid key
    and a 16-byte IV: a pair of transforms that undo each other and keep
    the length. *)
Lemma std_builder_streams (b : cipherStreamBuilder) (key iv : list byte) :
  std_builder b -> aes_key_size key = true -> len iv = 16 ->
  exists enc dec : cipher_Stream,
    b key iv encrypt = Returns (Ok enc) /\
    b key iv decrypt = Returns (Ok dec) /\
    (forall src, dec (enc src) = src) /\
    (forall src, len (enc src) = len src) /\
    (forall src, len (dec src) = len src).
Proof.
  intros Hb Hkey Hiv.
  destruct Hb as [-> | [-> | ->]].
  - unfold cfbStreamBuilder. rewrite (aes_NewCipher_ok _ Hkey).
    unfold cipher_NewCFBEncrypter, cipher_NewCFBDecrypter. rewrite (iv_check _ Hiv).
    cbn [encrypt decrypt Z.eqb obind block_key].
    do 2 eexists. split; [reflexivity|]. split; [reflexivity|]. split; [|split].
    + intros src. apply (cfb_blocks_roundtrip key (length src)); [lia | exact Hiv].
    + intros src. apply (cfb_encrypt_blocks_len key (length src)); [lia | exact Hiv].
    + intros src. apply (cfb_decrypt_blocks_len key (length src)); [lia | exact Hiv].
  - unfold ofbStreamBuilder. rewrite (aes_NewCipher_ok _ Hkey).
    unfold cipher_NewOFB. rewrite (iv_check _ Hiv). cbn [obind block_key].
    do 2 eexists. split; [reflexivity|]. split; [reflexivity|]. split; [|split].
    + intros src. apply xor_key_stream_involutive.
    + intros src. apply len_xor_key_stream.
    + intros src. apply len_xor_key_stream.
  - unfold ctrStreamBuilder. rewrite (aes_NewCipher_ok _ Hkey).
    unfold cipher_NewCTR. rewrite (iv_check _ Hiv). cbn [obind block_key].
    do 2 eexists. split; [reflexivity|]. split; [reflexivity|]. split; [|split].
    + intros src. apply xor_key_stream_involutive.
    + intros src. apply len_xor_key_stream.
    + intros src. apply len_xor_key_stream.
Qed.

Lemma steam_EncryptStream_with (s : steam) (enc : cipher_Stream) (r : Reader) (w : Writer) :
  cipherStream s (Key_Bytes (steam_key s)) (Key_Bytes (steam_iv s)) encrypt = Returns (Ok enc) ->
  steam_EncryptStream s r w = (w ++ Key_Bytes (steam_iv s) ++ enc r, None).
Proof.
  intros Henc. unfold steam_EncryptStream, steam_EncryptStream_body. rewrite Henc.
  cbn [obind deferred recoverPanic recoverFromPanic Writer_Write io_Copy_StreamWriter].
  now rewrite <- app_assoc.
Qed.

Lemma steam_DecryptStream_with (s : steam) (dec : cipher_Stream) (iv body : list byte)
    (w : Writer) :
  len iv = 16 ->
  cipherStream s (Key_Bytes (steam_key s)) iv decrypt = Returns (Ok dec) ->
  steam_DecryptStream s (iv ++ body) w = (w ++ dec body, None).
Proof.
  intros Hiv Hdec. unfold steam_DecryptStream, steam_DecryptStream_body.
  rewrite (io_ReadFull_block _ _ Hiv), Hdec. reflexivity.
Qed.

(** X11.  The stream API under a valid key and a 16-byte IV:
    [EncryptStream] appends to the writer the IV and as many bytes as it
    read, and [DecryptStream], on any instance with the same key and key
    stream, whatever IV that instance holds, gives the plaintext back
    behind what its writer held. *)
Theorem stream_round_trip (s : steam) (iv' : Key) (plainText : Reader) (w w' : Writer) :
  std_builder (cipherStream s) ->
  aes_key_size (Key_Bytes (steam_key s)) = true ->
  len (Key_Bytes (steam_iv s)) = 16 ->
  exists body,
    steam_EncryptStream s plainText w = (w ++ Key_Bytes (steam_iv s) ++ body, None) /\
    len body = len plainText /\
    steam_DecryptStream
      {| steam_key := steam_key s; steam_iv := iv'; cipherStream := cipherStream s |}
      (Key_Bytes (steam_iv s) ++ body) w'
    = (w' ++ plainText, None).
Proof.
  intros Hb Hkey Hiv.
  destruct (std_builder_streams _ _ _ Hb Hkey Hiv) as (enc & dec & He & Hd & Hinv & Hlen & _).
  exists (enc plainText). split; [|split].
  - now apply steam_EncryptStream_with.
  - apply Hlen.
  - rewrite (steam_DecryptStream_with
               {| steam_key := steam_key s; steam_iv := iv'; cipherStream := cipherStream s |}
               dec (Key_Bytes (steam_iv s)) (enc plainText) w' Hiv Hd).
    now rewrite Hinv.
Qed.

Context {lawful : LawfulCodec codec}.

(** The bytes an output string decodes to. *)
Definition decoded (out : string * option error) : list byte :=
  fst (DecodeString codec (fst out)).

(** An output that carries [iv] in front of as many bytes as the plaintext
    has. *)
Definition iv_then_body (iv : list byte) (plainText : string) (out : string * option error)
  : Prop :=
  snd out = None /\
  slice_to 16 (decoded out) = iv /\
  len (decoded out) = 16 + len (list_byte_of_string plainText).

Lemma iv_then_body_encoded (iv body : list byte) (plainText : string) :
  len iv = 16 -> len body = len (list_byte_of_string plainText) ->
  iv_then_body iv plainText (EncodeToString codec (iv ++ body), None).
Proof.
  intros Hiv Hbody. unfold iv_then_body, decoded. cbn [fst snd].
  rewrite decode_encode. cbn [fst]. split; [reflexivity|]. split.
  - rewrite <- Hiv. apply slice_to_app.
  - rewrite len_app. lia.
Qed.

Lemma streamToBlock_Encrypt_with (s : streamToBlock) (enc : cipher_Stream) (plainText : string) :
  cipherStream (Stream s) (Key_Bytes (steam_key (Stream s))) (Key_Bytes (steam_iv (Stream s)))
               encrypt = Returns (Ok enc) ->
  streamToBlock_Encrypt codec s plainText
  = (EncodeToString codec
       (Key_Bytes (steam_iv (Stream s)) ++ enc (list_byte_of_string plainText)), None).
Proof.
  intros Henc. unfold streamToBlock_Encrypt, streamToBlock_Encrypt_body.
  rewrite (steam_EncryptStream_with _ enc _ _ Henc). reflexivity.
Qed.

Lemma stream_Encrypt_layout (s : steam) (plainText : string) :
  std_builder (cipherStream s) ->
  aes_key_size (Key_Bytes (steam_key s)) = true ->
  len (Key_Bytes (steam_iv s)) = 16 ->
  iv_then_body (Key_Bytes (steam_iv s)) plainText
               (Encrypt codec (newStreamToBlock s) plainText).
Proof.
  intros Hb Hkey Hiv.
  destruct (std_builder_streams _ _ _ Hb Hkey Hiv) as (enc & dec & He & _ & _ & Hlen & _).
  cbn [Encrypt newStreamToBlock].
  rewrite (streamToBlock_Encrypt_with {| Stream := s |} enc plainText He).
  apply iv_then_body_encoded; [exact Hiv | apply Hlen].
Qed.

Lemma gcm_Encrypt_sealed (g : gcm) (plainText : string) :
  aes_key_size (Key_Bytes (gcm_key g)) = true ->
  len (Key_Bytes (gcm_nonce g)) = 12 ->
  exists ct,
    len ct = len (list_byte_of_string plainText) /\
    gcm_Encrypt codec g plainText
    = (EncodeToString codec
         (ct ++ gcm_tag (Key_Bytes (gcm_key g)) (Key_Bytes (gcm_nonce g)) ct), None).
Proof.
  intros Hkey Hn. eexists. split; [|].
  2: { unfold gcm_Encrypt, gcm_Encrypt_body. rewrite (aes_NewCipher_ok _ Hkey).
       cbn [cipher_NewGCM block_key]. unfold Seal. rewrite gcm_nonce_check, Hn.
       cbn [Z.eqb Pos.eqb negb obind deferred recoverFromPanic aead_key]. reflexivity. }
  apply len_xor_key_stream.
Qed.

(** X7.  What a ciphertext string decodes to, under a key of 16, 24 or 32
    bytes.  For [NewCBC] (plaintext of whole blocks), [NewCFB], [NewOFB] and
    [NewCTR] with a 16-byte IV: the IV in front, then exactly as many bytes
    as the plaintext has.  For [NewGCM] with a 12-byte nonce: 16 bytes more
    than the plaintext (the tag), the nonce not being part of the output. *)
Theorem ciphertext_layout (key iv nonce : Key) (plainText : string) :
  aes_key_size (Key_Bytes key) = true ->
  (len (Key_Bytes iv) = 16 ->
   (len (list_byte_of_string plainText) mod 16 = 0 ->
    iv_then_body (Key_Bytes iv) plainText (Encrypt codec (NewCBC key iv) plainText)) /\
   iv_then_body (Key_Bytes iv) plainText (Encrypt codec (NewCFB key iv) plainText) /\
   iv_then_body (Key_Bytes iv) plainText (Encrypt codec (NewOFB key iv) plainText) /\
   iv_then_body (Key_Bytes iv) plainText (Encrypt codec (NewCTR key iv) plainText)) /\
  (len (Key_Bytes nonce) = 12 ->
   snd (Encrypt codec (NewGCM key nonce) plainText) = None /\
   len (decoded (Encrypt codec (NewGCM key nonce) plainText))
   = len (list_byte_of_string plainText) + 16).
Proof.
  intros Hkey. split.
  - intros Hiv. split; [|split; [|split]].
    + intros Hp. cbn [Encrypt NewCBC].
      rewrite (cbc_Encrypt_ok codec {| cbc_key := key; cbc_iv := iv |} plainText Hkey Hiv Hp).
      cbn [cbc_key cbc_iv]. apply iv_then_body_encoded; [exact Hiv|].
      destruct (aligned_blocks _ Hp) as [n Hn].
      pose proof (cbc_encrypt_blocks_length (Key_Bytes key) n _ (Key_Bytes iv) Hn Hiv) as Hl.
      unfold len. lia.
    + apply (stream_Encrypt_layout (NewCFBStream key iv)); unfold std_builder; auto.
    + apply (stream_Encrypt_layout (NewOFBStream key iv)); unfold std_builder; auto.
    + apply (stream_Encrypt_layout (NewCTRStream key iv)); unfold std_builder; auto.
  - intros Hn.
    destruct (gcm_Encrypt_sealed {| gcm_key := key; gcm_nonce := nonce |} plainText Hkey Hn)
      as (ct & Hct & He).
    cbn [Encrypt NewGCM]. rewrite He. unfold decoded. cbn [fst snd gcm_key gcm_nonce].
    rewrite decode_encode. cbn [fst]. split; [reflexivity|].
    rewrite len_app, gcm_tag_len. lia.
Qed.

(** *** The IV travels with the ciphertext *)

Lemma cbc_cross_iv (key iv iv' : Key) (plainText : string) :
  aes_key_size (Key_Bytes key) = true -> len (Key_Bytes iv) = 16 ->
  len (list_byte_of_string plainText) mod 16 = 0 ->
  cbc_Decrypt codec {| cbc_key := key; cbc_iv := iv' |}
    (fst (cbc_Encrypt codec {| cbc_key := key; cbc_iv := iv |} plainText))
  = (plainText, None).
Proof.
  intros Hkey Hiv Hp.
  destruct (cbc_roundtrip codec {| cbc_key := key; cbc_iv := iv |} plainText Hkey Hiv Hp)
    as (body & He & Hd).
  rewrite He. cbn [fst]. exact Hd.
Qed.

Lemma stream_cross_iv (b : cipherStreamBuilder) (key iv iv' : Key) (plainText : string) :
  std_builder b -> aes_key_size (Key_Bytes key) = true -> len (Key_Bytes iv) = 16 ->
  streamToBlock_Decrypt codec
    {| Stream := {| steam_key := key; steam_iv := iv'; cipherStream := b |} |}
    (fst (streamToBlock_Encrypt codec
            {| Stream := {| steam_key := key; steam_iv := iv; cipherStream := b |} |}
            plainText))
  = (plainText, None).
Proof.
  intros Hb Hkey Hiv.
  destruct (streamToBlock_roundtrip codec
              {| Stream := {| steam_key := key; steam_iv := iv; cipherStream := b |} |}
              plainText (std_builder_inverse _ _ _ Hb Hkey Hiv) Hiv) as (body & He & Hd).
  rewrite He. cbn [fst]. exact Hd.
Qed.

(** X8.  The IV a decrypting instance holds plays no part for CBC, CFB, OFB
    and CTR: what an instance with key [key] and a 16-byte IV encrypted, any
    instance of the same mode with that key decrypts, whatever its own IV
    (of any length). *)
Theorem any_instance_with_the_key_decrypts (key iv iv' : Key) (plainText : string) :
  aes_key_size (Key_Bytes key) = true -> len (Key_Bytes iv) = 16 ->
  (len (list_byte_of_string plainText) mod 16 = 0 ->
   Decrypt codec (NewCBC key iv') (fst (Encrypt codec (NewCBC key iv) plainText))
   = (plainText, None)) /\
  Decrypt codec (NewCFB key iv') (fst (Encrypt codec (NewCFB key iv) plainText))
  = (plainText, None) /\
  Decrypt codec (NewOFB key iv') (fst (Encrypt codec (NewOFB key iv) plainText))
  = (plainText, None) /\
  Decrypt codec (NewCTR key iv') (fst (Encrypt codec (NewCTR key iv) plainText))
  = (plainText, None).
Proof.
  intros Hkey Hiv. unfold std_builder.
  split; [intros Hp; now apply cbc_cross_iv|].
  split; [|split]; apply stream_cross_iv; unfold std_builder; auto.
Qed.

(** X9.  Two instances made by [SimpleCFB], by [SimpleOFB] or by [SimpleCTR]
    from the same passphrase (and default salt) decrypt each other's output,
    although each drew its own random IV: the second half of what
    [testCipher] tests. *)
Theorem simple_instances_interoperate (E E' : Entropy) (keyPassphrase plainText : string) :
  Decrypt codec (SimpleCFB DefaultSalt E' keyPassphrase)
    (fst (Encrypt codec (SimpleCFB DefaultSalt E keyPassphrase) plainText))
  = (plainText, None) /\
  Decrypt codec (SimpleOFB DefaultSalt E' keyPassphrase)
    (fst (Encrypt codec (SimpleOFB DefaultSalt E keyPassphrase) plainText))
  = (plainText, None) /\
  Decrypt codec (SimpleCTR DefaultSalt E' keyPassphrase)
    (fst (Encrypt codec (SimpleCTR DefaultSalt E keyPassphrase) plainText))
  = (plainText, None).
Proof.
  pose proof (NewAesKey_valid DefaultSalt keyPassphrase) as Hkey.
  pose proof (NewRandomIv_len DefaultSalt E) as Hiv.
  split; [|split]; apply stream_cross_iv; unfold std_builder; auto.
Qed.

(** *** Empty plaintexts *)

Lemma len_zero_stream (f : cipher_Stream) :
  (forall src, len (f src) = len src) -> f [] = [].
Proof. intros Hlen. apply len_zero_nil. now rewrite Hlen. Qed.

Lemma stream_Decrypt_one_block (s : steam) (cipherText : string) (ct : list byte) :
  std_builder (cipherStream s) ->
  aes_key_size (Key_Bytes (steam_key s)) = true ->
  DecodeString codec cipherText = (ct, None) -> len ct = 16 ->
  Decrypt codec (newStreamToBlock s) cipherText = (EmptyString, None).
Proof.
  intros Hb Hkey Hd Hct.
  destruct (std_builder_streams _ _ _ Hb Hkey Hct) as (enc & dec & _ & Hdec & _ & _ & Hlen).
  cbn [Decrypt newStreamToBlock]. unfold streamToBlock_Decrypt, streamToBlock_Decrypt_body.
  rewrite Hd. cbn [Stream]. rewrite <- (app_nil_r ct).
  rewrite (steam_DecryptStream_with s dec ct [] [] Hct Hdec).
  rewrite (len_zero_stream dec Hlen). reflexivity.
Qed.

Lemma stream_Encrypt_empty (s : steam) :
  std_builder (cipherStream s) ->
  aes_key_size (Key_Bytes (steam_key s)) = true ->
  len (Key_Bytes (steam_iv s)) = 16 ->
  Encrypt codec (newStreamToBlock s) EmptyString
  = (EncodeToString codec (Key_Bytes (steam_iv s)), None).
Proof.
  intros Hb Hkey Hiv.
  destruct (std_builder_streams _ _ _ Hb Hkey Hiv) as (enc & dec & He & _ & _ & Hlen & _).
  cbn [Encrypt newStreamToBlock].
  rewrite (streamToBlock_Encrypt_with {| Stream := s |} enc EmptyString He).
  cbn [Stream]. change (list_byte_of_string EmptyString) with (@nil byte).
  rewrite (len_zero_stream enc Hlen), app_nil_r. reflexivity.
Qed.

(** X10.  The empty plaintext, under a key of 16, 24 or 32 bytes.  [NewCBC],
    [NewCFB], [NewOFB] and [NewCTR] with a 16-byte IV encrypt it to the
    encoded IV alone, and each of them decrypts every ciphertext of exactly
    16 bytes, whatever they are, to the empty string without an error. *)
Theorem empty_plaintext_is_the_iv_alone (key iv : Key) (cipherText : string) (ct : list byte) :
  aes_key_size (Key_Bytes key) = true ->
  (len (Key_Bytes iv) = 16 ->
   forall c, In c [NewCBC key iv; NewCFB key iv; NewOFB key iv; NewCTR key iv] ->
   Encrypt codec c EmptyString = (EncodeToString codec (Key_Bytes iv), None)) /\
  (DecodeString codec cipherText = (ct, None) -> len ct = 16 ->
   forall c, In c [NewCBC key iv; NewCFB key iv; NewOFB key iv; NewCTR key iv] ->
   Decrypt codec c cipherText = (EmptyString, None)).
Proof.
  intros Hkey. split.
  - intros Hiv c [<- | [<- | [<- | [<- | []]]]].
    + cbn [Encrypt NewCBC].
      rewrite (cbc_Encrypt_ok codec {| cbc_key := key; cbc_iv := iv |} EmptyString
                 Hkey Hiv eq_refl).
      cbn [cbc_key cbc_iv]. change (list_byte_of_string EmptyString) with (@nil byte).
      rewrite blocks_nil. cbn [cbc_encrypt_blocks]. now rewrite app_nil_r.
    + apply (stream_Encrypt_empty (NewCFBStream key iv)); unfold std_builder; auto.
    + apply (stream_Encrypt_empty (NewOFBStream key iv)); unfold std_builder; auto.
    + apply (stream_Encrypt_empty (NewCTRStream key iv)); unfold std_builder; auto.
  - intros Hd Hct c [<- | [<- | [<- | [<- | []]]]].
    + cbn [Decrypt NewCBC].
      rewrite (cbc_Decrypt_ok codec {| cbc_key := key; cbc_iv := iv |} cipherText ct
                 Hd Hkey ltac:(lia) ltac:(now rewrite Hct)).
      rewrite <- Hct, slice_from_all, blocks_nil. reflexivity.
    + apply (stream_Decrypt_one_block (NewCFBStream key iv) cipherText ct);
        unfold std_builder; auto.
    + apply (stream_Decrypt_one_block (NewOFBStream key iv) cipherText ct);
        unfold std_builder; auto.
    + apply (stream_Decrypt_one_block (NewCTRStream key iv) cipherText ct);
        unfold std_builder; auto.
Qed.

(** *** GCM authentication *)

(** X12.  GCM [Decrypt] under a valid key and a 12-byte nonce refuses, with
    the authentication error of [Open] and the empty string, every decodable
    ciphertext that is shorter than the 16-byte tag and every one whose last
    16 bytes are not the tag of the bytes before them; so a ciphertext whose
    tag was replaced by any other 16 bytes is never decrypted. *)
Theorem gcm_rejects_short_and_wrong_tag (key nonce : Key) (cipherText : string)
    (ct : list byte) :
  aes_key_size (Key_Bytes key) = true -> len (Key_Bytes nonce) = 12 ->
  DecodeString codec cipherText = (ct, None) ->
  (len ct < 16 ->
   Decrypt codec (NewGCM key nonce) cipherText = (EmptyString, Some cipher_errOpen)) /\
  (forall body tag',
     ct = body ++ tag' -> len tag' = 16 ->
     tag' <> gcm_tag (Key_Bytes key) (Key_Bytes nonce) body ->
     Decrypt codec (NewGCM key nonce) cipherText = (EmptyString, Some cipher_errOpen)).
Proof.
  intros Hkey Hn Hd. cbn [Decrypt NewGCM]. unfold gcm_Decrypt, gcm_Decrypt_body.
  rewrite Hd. cbn [gcm_key gcm_nonce]. rewrite (aes_NewCipher_ok _ Hkey).
  cbn [cipher_NewGCM block_key]. unfold Open. rewrite gcm_nonce_check, Hn.
  cbn [Z.eqb Pos.eqb negb aead_key]. unfold gcmTagSize. split.
  - intros Hshort. destruct (Z.ltb_spec (len ct) 16); [reflexivity | lia].
  - intros body tag' -> Htag Hne. pose proof (len_nonneg body) as Hb.
    rewrite len_app, Htag.
    destruct (Z.ltb_spec (len body + 16) 16) as [|_]; [lia|].
    replace (len body + 16 - 16) with (len body) by lia.
    rewrite slice_from_app, slice_to_app.
    destruct (list_eq_dec Byte.byte_eq_dec _ tag') as [Heq|_]; [|reflexivity].
    now contradiction Hne.
Qed.

Lemma stream_Decrypt_any (s : steam) (cipherText : string) (ct : list byte) :
  std_builder (cipherStream s) ->
  aes_key_size (Key_Bytes (steam_key s)) = true ->
  DecodeString codec cipherText = (ct, None) -> 16 <= len ct ->
  exists p,
    Decrypt codec (newStreamToBlock s) cipherText = (p, None) /\
    len (list_byte_of_string p) = len ct - 16.
Proof.
  intros Hb Hkey Hd Hct.
  assert (Hiv : len (slice_to 16 ct) = 16) by (apply len_slice_to; lia).
  destruct (std_builder_streams _ _ _ Hb Hkey Hiv) as (enc & dec & _ & Hdec & _ & _ & Hlen).
  pose proof (slice_to_from 16 ct) as Hsplit.
  pose proof (len_slice_from 16 ct ltac:(lia)) as Hbody.
  rewrite <- Hsplit in Hd.
  cbn [Decrypt newStreamToBlock]. unfold streamToBlock_Decrypt, streamToBlock_Decrypt_body.
  rewrite Hd. cbn [Stream].
  rewrite (steam_DecryptStream_with s dec (slice_to 16 ct) (slice_from 16 ct) [] Hiv Hdec).
  exists (string_of_list_byte (dec (slice_from 16 ct))). split; [reflexivity|].
  now rewrite list_byte_of_string_of_list_byte, Hlen.
Qed.

(** X17.  CBC, CFB, OFB and CTR do not authenticate: under a valid key,
    [Decrypt] of the three stream modes takes every decodable ciphertext of
    at least 16 bytes, whatever its bytes, and returns without an error a
    plaintext 16 bytes shorter; [Decrypt] of CBC returns without an error
    on every one whose length is a multiple of 16. *)
Theorem unauthenticated_modes_accept_any_ciphertext (key iv : Key) (cipherText : string)
    (ct : list byte) :
  aes_key_size (Key_Bytes key) = true ->
  DecodeString codec cipherText = (ct, None) -> 16 <= len ct ->
  (len ct mod 16 = 0 -> snd (Decrypt codec (NewCBC key iv) cipherText) = None) /\
  (forall c, In c [NewCFB key iv; NewOFB key iv; NewCTR key iv] ->
   exists p, Decrypt codec c cipherText = (p, None) /\
             len (list_byte_of_string p) = len ct - 16).
Proof.
  intros Hkey Hd Hct. split.
  - intros Hmod. cbn [Decrypt NewCBC].
    now rewrite (cbc_Decrypt_ok codec {| cbc_key := key; cbc_iv := iv |} cipherText ct
                   Hd Hkey Hct Hmod).
  - intros c [<- | [<- | [<- | []]]].
    + apply (stream_Decrypt_any (NewCFBStream key iv)); unfold std_builder; auto.
    + apply (stream_Decrypt_any (NewOFBStream key iv)); unfold std_builder; auto.
    + apply (stream_Decrypt_any (NewCTRStream key iv)); unfold std_builder; auto.
Qed.

(** *** Key stream reuse *)

Lemma xorb_cancel (a b k : bool) : xorb (xorb a k) (xorb b k) = xorb a b.
Proof. destruct a, b, k; reflexivity. Qed.

Lemma byte_xor_cancel_key (a b k : byte) : byte_xor (byte_xor a k) (byte_xor b k) = byte_xor a b.
Proof.
  unfold byte_xor. rewrite !Byte.to_bits_of_bits. f_equal.
  destruct (Byte.to_bits a) as [a0 [a1 [a2 [a3 [a4 [a5 [a6 a7]]]]]]].
  destruct (Byte.to_bits b) as [b0 [b1 [b2 [b3 [b4 [b5 [b6 b7]]]]]]].
  destruct (Byte.to_bits k) as [k0 [k1 [k2 [k3 [k4 [k5 [k6 k7]]]]]]].
  cbn [bits8_xor]. now rewrite !xorb_cancel.
Qed.

Lemma xor_key_stream_pair (ks : nat -> byte) : forall (a b : list byte) (pos : nat),
  xor_bytes (xor_key_stream ks pos a) (xor_key_stream ks pos b) = xor_bytes a b.
Proof.
  unfold xor_bytes. induction a as [|x a IH]; intros b pos; [reflexivity|].
  destruct b as [|y b]; [reflexivity|].
  cbn [xor_key_stream combine map fst snd]. now rewrite byte_xor_cancel_key, IH.
Qed.

Lemma xor_stream_leak (s : steam) (ks : nat -> byte) (p1 p2 : string) :
  cipherStream s (Key_Bytes (steam_key s)) (Key_Bytes (steam_iv s)) encrypt
  = Returns (Ok (xor_key_stream ks 0)) ->
  len (Key_Bytes (steam_iv s)) = 16 ->
  xor_bytes (slice_from 16 (decoded (Encrypt codec (newStreamToBlock s) p1)))
            (slice_from 16 (decoded (Encrypt codec (newStreamToBlock s) p2)))
  = xor_bytes (list_byte_of_string p1) (list_byte_of_string p2).
Proof.
  intros He Hiv. cbn [Encrypt newStreamToBlock].
  rewrite !(streamToBlock_Encrypt_with {| Stream := s |} _ _ He).
  unfold decoded. cbn [fst Stream]. rewrite !decode_encode. cbn [fst].
  rewrite <- Hiv, !slice_from_app. apply xor_key_stream_pair.
Qed.

Lemma ofb_ctr_key_stream (b : cipherStreamBuilder) (key iv : list byte) :
  b = ofbStreamBuilder \/ b = ctrStreamBuilder ->
  aes_key_size key = true -> len iv = 16 ->
  exists ks, b key iv encrypt = Returns (Ok (xor_key_stream ks 0)).
Proof.
  intros [-> | ->] Hkey Hiv.
  - unfold ofbStreamBuilder. rewrite (aes_NewCipher_ok _ Hkey).
    unfold cipher_NewOFB. rewrite (iv_check _ Hiv). cbn [obind block_key].
    eexists. reflexivity.
  - unfold ctrStreamBuilder. rewrite (aes_NewCipher_ok _ Hkey).
    unfold cipher_NewCTR. rewrite (iv_check _ Hiv). cbn [obind block_key].
    eexists. reflexivity.
Qed.

(** X13.  One OFB or CTR instance uses one key stream for every call: the
    bytes after the IV in two of its ciphertexts, xored with each other, are
    the two plaintexts xored with each other (over the length of the
    shorter).  So it is for [NewOFB] and [NewCTR] under a valid key and IV,
    and for every [SimpleOFB] and [SimpleCTR] instance, whose IV is fixed
    when it is made. *)
Theorem ofb_ctr_instance_reuses_key_stream (key iv : Key) (E : Entropy)
    (keyPassphrase p1 p2 : string) :
  (aes_key_size (Key_Bytes key) = true -> len (Key_Bytes iv) = 16 ->
   forall c, In c [NewOFB key iv; NewCTR key iv] ->
   xor_bytes (slice_from 16 (decoded (Encrypt codec c p1)))
             (slice_from 16 (decoded (Encrypt codec c p2)))
   = xor_bytes (list_byte_of_string p1) (list_byte_of_string p2)) /\
  (forall c, In c [SimpleOFB DefaultSalt E keyPassphrase; SimpleCTR DefaultSalt E keyPassphrase] ->
   xor_bytes (slice_from 16 (decoded (Encrypt codec c p1)))
             (slice_from 16 (decoded (Encrypt codec c p2)))
   = xor_bytes (list_byte_of_string p1) (list_byte_of_string p2)).
Proof.
  assert (H : forall b k i,
             b = ofbStreamBuilder \/ b = ctrStreamBuilder ->
             aes_key_size (Key_Bytes k) = true -> len (Key_Bytes i) = 16 ->
             xor_bytes
               (slice_from 16 (decoded (Encrypt codec
                  (newStreamToBlock {| steam_key := k; steam_iv := i; cipherStream := b |}) p1)))
               (slice_from 16 (decoded (Encrypt codec
                  (newStreamToBlock {| steam_key := k; steam_iv := i; cipherStream := b |}) p2)))
             = xor_bytes (list_byte_of_string p1) (list_byte_of_string p2)).
  { intros b k i Hb Hk Hi.
    destruct (ofb_ctr_key_stream b _ _ Hb Hk Hi) as [ks Hks].
    apply (xor_stream_leak {| steam_key := k; steam_iv := i; cipherStream := b |} ks);
      assumption. }
  split.
  - intros Hkey Hiv c [<- | [<- | []]]; apply H; auto.
  - pose proof (NewAesKey_valid DefaultSalt keyPassphrase) as Hkey.
    pose proof (NewRandomIv_len DefaultSalt E) as Hiv.
    intros c [<- | [<- | []]]; apply H; auto.
Qed.

Lemma gcm_Encrypt_stream (g : gcm) (plainText : string) :
  aes_key_size (Key_Bytes (gcm_key g)) = true ->
  len (Key_Bytes (gcm_nonce g)) = 12 ->
  let ct := xor_key_stream
              (key_stream_of (gcm_block (Key_Bytes (gcm_key g)) (Key_Bytes (gcm_nonce g)))) 0
              (list_byte_of_string plainText) in
  gcm_Encrypt codec g plainText
  = (EncodeToString codec
       (ct ++ gcm_tag (Key_Bytes (gcm_key g)) (Key_Bytes (gcm_nonce g)) ct), None).
Proof.
  intros Hkey Hn ct. unfold gcm_Encrypt, gcm_Encrypt_body. rewrite (aes_NewCipher_ok _ Hkey).
  cbn [cipher_NewGCM block_key]. unfold Seal. rewrite gcm_nonce_check, Hn.
  cbn [Z.eqb Pos.eqb negb obind deferred recoverFromPanic aead_key]. reflexivity.
Qed.

Lemma slice_to_key_stream (ks : nat -> byte) (p t : list byte) :
  slice_to (len p) (xor_key_stream ks 0 p ++ t) = xor_key_stream ks 0 p.
Proof. rewrite <- (len_xor_key_stream ks p 0) at 1. apply slice_to_app. Qed.

Lemma gcm_xor_leak (g : gcm) (p1 p2 : string) :
  aes_key_size (Key_Bytes (gcm_key g)) = true ->
  len (Key_Bytes (gcm_nonce g)) = 12 ->
  xor_bytes
    (slice_to (len (list_byte_of_string p1)) (decoded (Encrypt codec (CipherGCM g) p1)))
    (slice_to (len (list_byte_of_string p2)) (decoded (Encrypt codec (CipherGCM g) p2)))
  = xor_bytes (list_byte_of_string p1) (list_byte_of_string p2).
Proof.
  intros Hkey Hn. cbn [Encrypt].
  rewrite !(gcm_Encrypt_stream g _ Hkey Hn). unfold decoded. cbn [fst].
  rewrite !decode_encode. cbn [fst].
  rewrite !slice_to_key_stream. apply xor_key_stream_pair.
Qed.

(** X14.  A GCM instance seals every plaintext under the one nonce it was
    made with: the ciphertext bytes before the tags of any two of its
    outputs, xored with each other, are the two plaintexts xored with each
    other (over the length of the shorter).  So it is for [NewGCM] under a
    valid key and a 12-byte nonce and for every [SimpleGCM] instance. *)
Theorem gcm_instance_reuses_nonce (key nonce : Key)
    (keyPassphrase noncePassphrase p1 p2 : string) :
  (aes_key_size (Key_Bytes key) = true -> len (Key_Bytes nonce) = 12 ->
   xor_bytes
     (slice_to (len (list_byte_of_string p1)) (decoded (Encrypt codec (NewGCM key nonce) p1)))
     (slice_to (len (list_byte_of_string p2)) (decoded (Encrypt codec (NewGCM key nonce) p2)))
   = xor_bytes (list_byte_of_string p1) (list_byte_of_string p2)) /\
  xor_bytes
    (slice_to (len (list_byte_of_string p1))
       (decoded (Encrypt codec (SimpleGCM DefaultSalt keyPassphrase noncePassphrase) p1)))
    (slice_to (len (list_byte_of_string p2))
       (decoded (Encrypt codec (SimpleGCM DefaultSalt keyPassphrase noncePassphrase) p2)))
  = xor_bytes (list_byte_of_string p1) (list_byte_of_string p2).
Proof.
  split.
  - intros Hkey Hn. now apply gcm_xor_leak.
  - apply gcm_xor_leak.
    + apply NewAesKey_valid.
    + apply NewNonce_default_len.
Qed.

End LayoutFacts.

(** ** Keys and options *)

Section KeyFacts.

Context {scrypt : Scrypt}.
Variable DefaultSalt : string.

(** X15.  When scrypt succeeds, [keyGen.Bytes] is scrypt's output and nothing
    else: the key derived from the passphrase and the salt with N = 2048,
    r = 8, p = 1 and the requested length (0 for a negative one), neither
    padded nor truncated. *)
Theorem keyGen_Bytes_is_the_scrypt_key (g : keyGen) (k : list byte) :
  scrypt_Key (list_byte_of_string (Passphrase g)) (list_byte_of_string (Salt g))
             2048 8 1 (Z.max (Len g) 0) = (k, None) ->
  keyGen_Bytes g = k.
Proof.
  intros Hs. unfold keyGen_Bytes.
  assert (Hm : (if Len g <? 0 then 0 else Len g) = Z.max (Len g) 0)
    by (destruct (Z.ltb_spec (Len g) 0); lia).
  rewrite Hm, Hs. cbn [is_nil negb andb].
  rewrite (scrypt_Key_ok _ _ _ _ _ _ _ (Z.le_max_r (Len g) 0) Hs).
  rewrite Z.ltb_irrefl. unfold Z.gtb. now rewrite Z.compare_refl.
Qed.

Lemma apply_options_app (o1 o2 : list KeyGenOption) (g : keyGen) :
  apply_options (o1 ++ o2) g = apply_options o2 (apply_options o1 g).
Proof. unfold apply_options. apply fold_left_app. Qed.

Lemma is_aes_len_clamp (n : KeyLen) :
  is_aes_len (if is_aes_len n then n else Aes256) = true.
Proof. destruct (is_aes_len n) eqn:H; [exact H | reflexivity]. Qed.

(** X16.  Options are applied in order and each sets one field, so the last
    option of a kind decides: whatever options come first, a key made with
    [WithPassphrase(q)], [WithSalt(s)] and [WithLen(n)] at the end, in any
    order, is the key [NewKey] makes from [q], [s] and the length [n]
    (32 when [n] is not 16, 24 or 32), the passphrase argument of [NewAesKey]
    playing no part; for [NewIv] and [NewNonce] the same holds.  Without
    options the three constructors are [NewKey] at [DefaultSalt] with 32, 16
    and 12 bytes. *)
Theorem last_option_decides (p q s : string) (n : KeyLen) (options last : list KeyGenOption) :
  In last [ [WithPassphrase q; WithSalt s; WithLen n];
            [WithPassphrase q; WithLen n; WithSalt s];
            [WithSalt s; WithPassphrase q; WithLen n];
            [WithSalt s; WithLen n; WithPassphrase q];
            [WithLen n; WithPassphrase q; WithSalt s];
            [WithLen n; WithSalt s; WithPassphrase q] ] ->
  let n' := if is_aes_len n then n else Aes256 in
  NewAesKey DefaultSalt p (options ++ last) = NewKey q n' s /\
  NewIv DefaultSalt p (options ++ last) = NewKey q n' s /\
  NewNonce DefaultSalt p (options ++ last) = NewKey q n' s /\
  NewAesKey DefaultSalt p [] = NewKey p 32 DefaultSalt /\
  NewIv DefaultSalt p [] = NewKey p 16 DefaultSalt /\
  NewNonce DefaultSalt p [] = NewKey p 12 DefaultSalt.
Proof.
  intros Hlast n'.
  assert (H : forall g, apply_options (options ++ last) g = newKeyGen q n' s).
  { intros g. rewrite apply_options_app.
    destruct Hlast as [<- | [<- | [<- | [<- | [<- | [<- | []]]]]]]; reflexivity. }
  unfold NewAesKey, NewIv, NewNonce, NewKey. rewrite !H.
  cbn [newKeyGen Len]. unfold n'. rewrite is_aes_len_clamp.
  repeat split.
Qed.

End KeyFacts.

(** ** The further properties at concrete inputs *)

(** A key of five bytes, which AES refuses. *)
Definition short_key : Key := Bytes (list_byte_of_string "short").

(** X3 at the ciphertext "zz", which is not hexadecimal. *)
Lemma Decrypt_returns_the_codec_error_witness :
  @Decrypt sample_scrypt sample_aes sample_tag HexCodec (NewGCM key16 nonce12) "zz"
  = (EmptyString, Some (hex_InvalidByteError "z"%byte)).
Proof.
  apply (@Decrypt_returns_the_codec_error sample_scrypt sample_aes sample_tag HexCodec
           (NewGCM key16 nonce12) "zz"%string [] (hex_InvalidByteError "z"%byte)).
  vm_compute. reflexivity.
Defined.

(** X5 at a five-byte key: a plaintext of ten bytes, one of sixteen, and a
    ciphertext of sixteen bytes. *)
Lemma cbc_invalid_key_witness :
  @Encrypt sample_scrypt sample_aes sample_tag HexCodec (NewCBC short_key iv16) "plain-text"
  = (EmptyString, Some ErrPlaintextBlockSize) /\
  @Encrypt sample_scrypt sample_aes sample_tag HexCodec (NewCBC short_key iv16)
     "plain-text-plain"
  = (EmptyString, Some (aes_KeySizeError 5)) /\
  @Decrypt sample_scrypt sample_aes sample_tag HexCodec (NewCBC short_key iv16)
     "69763030697630316976303269763033"
  = (EmptyString, Some (aes_KeySizeError 5)).
Proof.
  split; [|split].
  - apply (proj1 (@cbc_invalid_key sample_scrypt sample_aes sample_tag HexCodec
                    short_key iv16 "plain-text"%string EmptyString [] eq_refl)).
  - apply (proj1 (@cbc_invalid_key sample_scrypt sample_aes sample_tag HexCodec
                    short_key iv16 "plain-text-plain"%string EmptyString [] eq_refl)).
  - apply (proj2 (@cbc_invalid_key sample_scrypt sample_aes sample_tag HexCodec
                    short_key iv16 EmptyString "69763030697630316976303269763033"%string
                    (Key_Bytes iv16) eq_refl)).
    vm_compute. reflexivity.
Defined.

(** X6 at a CTR stream under the five-byte key. *)
Lemma stream_invalid_key_witness :
  @steam_EncryptStream sample_scrypt (NewCTRStream short_key iv16)
     (list_byte_of_string "plain") []
  = ([], Some (Errorf_w_w ErrNewAesCipher (aes_KeySizeError 5))) /\
  @Encrypt sample_scrypt sample_aes sample_tag HexCodec (NewCTR short_key iv16) "plain"
  = (EmptyString, Some (Errorf_w_w ErrNewAesCipher (aes_KeySizeError 5))).
Proof.
  destruct (@stream_invalid_key sample_scrypt sample_aes sample_tag HexCodec
              (NewCTRStream short_key iv16) "plain" (list_byte_of_string "plain") [])
    as (He & _ & Hs & _).
  - unfold std_builder. cbn [cipherStream NewCTRStream]. auto.
  - reflexivity.
  - split; [exact He | exact Hs].
Defined.

(** X7 at the plaintext "plain-text-plain" under [key16]. *)
Lemma ciphertext_layout_witness :
  LawfulCodec HexCodec /\
  @iv_then_body HexCodec (Key_Bytes iv16) "plain-text-plain"
    (@Encrypt sample_scrypt sample_aes sample_tag HexCodec (NewCBC key16 iv16)
       "plain-text-plain") /\
  len (@decoded HexCodec
         (@Encrypt sample_scrypt sample_aes sample_tag HexCodec (NewGCM key16 nonce12)
            "plain-text-plain")) = 32.
Proof.
  destruct (@ciphertext_layout sample_scrypt sample_aes sample_tag HexCodec HexCodec_lawful
              key16 iv16 nonce12 "plain-text-plain" eq_refl) as [Hiv Hn].
  split; [exact HexCodec_lawful|]. split.
  - apply (proj1 (Hiv eq_refl)). reflexivity.
  - apply (proj2 (Hn eq_refl)).
Defined.

(** X8 at a CFB ciphertext made with [iv16] and decrypted by an instance
    that holds a 12-byte IV. *)
Lemma any_instance_with_the_key_decrypts_witness :
  LawfulCodec HexCodec /\
  @Decrypt sample_scrypt sample_aes sample_tag HexCodec (NewCFB key16 nonce12)
    (fst (@Encrypt sample_scrypt sample_aes sample_tag HexCodec (NewCFB key16 iv16)
            "Hello, World!"))
  = ("Hello, World!"%string, None).
Proof.
  split; [exact HexCodec_lawful|].
  apply (@any_instance_with_the_key_decrypts sample_scrypt sample_aes sample_tag HexCodec
           HexCodec_lawful key16 iv16 nonce12 "Hello, World!" eq_refl eq_refl).
Defined.

(** X9 at two [SimpleOFB] instances, one of which could not read random
    bytes. *)
Lemma simple_instances_interoperate_witness :
  LawfulCodec HexCodec /\
  @Decrypt sample_scrypt sample_aes sample_tag HexCodec
    (SimpleOFB "testsalt"
       {| rand_Read_err := Some ErrCopy; rand_Read_byte := fun _ => x00;
          Sprint_float_now := "0.25 now" |} "key")
    (fst (@Encrypt sample_scrypt sample_aes sample_tag HexCodec
            (SimpleOFB "testsalt" sample_entropy "key") "Hello, World!"))
  = ("Hello, World!"%string, None).
Proof.
  split; [exact HexCodec_lawful|].
  apply (@simple_instances_interoperate sample_scrypt sample_aes sample_tag HexCodec
           "testsalt" HexCodec_lawful sample_entropy
           {| rand_Read_err := Some ErrCopy; rand_Read_byte := fun _ => x00;
              Sprint_float_now := "0.25 now" |} "key" "Hello, World!").
Defined.

(** X10 at [NewCTR] under [key16]: the empty plaintext, and a ciphertext
    of sixteen zero bytes. *)
Lemma empty_plaintext_is_the_iv_alone_witness :
  @Encrypt sample_scrypt sample_aes sample_tag HexCodec (NewCTR key16 iv16) EmptyString
  = ("69763030697630316976303269763033"%string, None) /\
  @Decrypt sample_scrypt sample_aes sample_tag HexCodec (NewCTR key16 iv16)
    "00000000000000000000000000000000"
  = (EmptyString, None).
Proof.
  destruct (@empty_plaintext_is_the_iv_alone sample_scrypt sample_aes sample_tag HexCodec
              key16 iv16 "00000000000000000000000000000000"
              (fst (hex_Decode (list_byte_of_string "00000000000000000000000000000000")))
              eq_refl) as [He Hd].
  split.
  - apply (He eq_refl). cbn [In]. auto.
  - apply (Hd eq_refl eq_refl). cbn [In]. auto.
Defined.

(** X11 at a CTR stream writing behind the byte 'w'. *)
Lemma stream_round_trip_witness :
  exists body,
    @steam_EncryptStream sample_scrypt (NewCTRStream key16 iv16)
       (list_byte_of_string "ab") (list_byte_of_string "w")
    = (list_byte_of_string "w" ++ Key_Bytes iv16 ++ body, None) /\
    len body = 2 /\
    @steam_DecryptStream sample_scrypt (NewCTRStream key16 nonce12)
       (Key_Bytes iv16 ++ body) []
    = (list_byte_of_string "ab", None).
Proof.
  apply (@stream_round_trip sample_scrypt sample_aes (NewCTRStream key16 iv16) nonce12
           (list_byte_of_string "ab") (list_byte_of_string "w") []).
  - unfold std_builder. cbn [cipherStream NewCTRStream]. auto.
  - reflexivity.
  - reflexivity.
Defined.

(** X12 at a ciphertext of two bytes and at the ciphertext of the empty
    plaintext with the last byte of its tag changed. *)
Lemma gcm_rejects_short_and_wrong_tag_witness :
  @Decrypt sample_scrypt sample_aes sample_tag HexCodec (NewGCM key16 nonce12) "00ff"
  = (EmptyString, Some cipher_errOpen) /\
  @Decrypt sample_scrypt sample_aes sample_tag HexCodec (NewGCM key16 nonce12)
    "6b657930d9d4e794d095e7a1d9c8de65"
  = (EmptyString, Some cipher_errOpen).
Proof.
  split.
  - apply (proj1 (@gcm_rejects_short_and_wrong_tag sample_scrypt sample_aes sample_tag
                    HexCodec key16 nonce12 "00ff" [x00; xff] eq_refl eq_refl eq_refl)).
    reflexivity.
  - apply (proj2 (@gcm_rejects_short_and_wrong_tag sample_scrypt sample_aes sample_tag
                    HexCodec key16 nonce12 "6b657930d9d4e794d095e7a1d9c8de65"
                    (fst (hex_Decode
                            (list_byte_of_string "6b657930d9d4e794d095e7a1d9c8de65")))
                    eq_refl eq_refl eq_refl)
             []
             (fst (hex_Decode (list_byte_of_string "6b657930d9d4e794d095e7a1d9c8de65")))).
    + reflexivity.
    + reflexivity.
    + vm_compute. discriminate.
Defined.

(** X13 at two plaintexts encrypted by one [SimpleCTR] instance. *)
Lemma ofb_ctr_instance_reuses_key_stream_witness :
  LawfulCodec HexCodec /\
  xor_bytes
    (slice_from 16 (@decoded HexCodec
       (@Encrypt sample_scrypt sample_aes sample_tag HexCodec
          (SimpleCTR "testsalt" sample_entropy "key") "attack at dawn")))
    (slice_from 16 (@decoded HexCodec
       (@Encrypt sample_scrypt sample_aes sample_tag HexCodec
          (SimpleCTR "testsalt" sample_entropy "key") "retreat at ten")))
  = xor_bytes (list_byte_of_string "attack at dawn") (list_byte_of_string "retreat at ten").
Proof.
  split; [exact HexCodec_lawful|].
  apply (proj2 (@ofb_ctr_instance_reuses_key_stream sample_scrypt sample_aes sample_tag
                  HexCodec "testsalt" HexCodec_lawful key16 iv16 sample_entropy "key"
                  "attack at dawn" "retreat at ten")).
  cbn [In]. auto.
Defined.

(** X14 at two plaintexts sealed by one [SimpleGCM] instance. *)
Lemma gcm_instance_reuses_nonce_witness :
  LawfulCodec HexCodec /\
  xor_bytes
    (slice_to 14 (@decoded HexCodec
       (@Encrypt sample_scrypt sample_aes sample_tag HexCodec
          (SimpleGCM "testsalt" "key" "nonce") "attack at dawn")))
    (slice_to 14 (@decoded HexCodec
       (@Encrypt sample_scrypt sample_aes sample_tag HexCodec
          (SimpleGCM "testsalt" "key" "nonce") "retreat at ten")))
  = xor_bytes (list_byte_of_string "attack at dawn") (list_byte_of_string "retreat at ten").
Proof.
  split; [exact HexCodec_lawful|].
  apply (proj2 (@gcm_instance_reuses_nonce sample_scrypt sample_aes sample_tag
                  HexCodec "testsalt" HexCodec_lawful key16 nonce12 "key" "nonce"
                  "attack at dawn" "retreat at ten")).
Defined.

(** X15 at the passphrase "ab", the salt "s" and four bytes. *)
Lemma keyGen_Bytes_is_the_scrypt_key_witness :
  @keyGen_Bytes sample_scrypt {| Passphrase := "ab"; Len := 4; Salt := "s" |}
  = fst (@scrypt_Key sample_scrypt (list_byte_of_string "ab") (list_byte_of_string "s")
           2048 8 1 4).
Proof.
  apply (@keyGen_Bytes_is_the_scrypt_key sample_scrypt
           {| Passphrase := "ab"; Len := 4; Salt := "s" |}).
  reflexivity.
Defined.

(** X16 at a length of 20 bytes given before the salt and the passphrase. *)
Lemma last_option_decides_witness :
  NewAesKey "testsalt" "first"
    [WithSalt "unused"; WithLen 20; WithSalt "salt"; WithPassphrase "second"]
  = NewKey "second" 32 "salt".
Proof.
  apply (proj1 (last_option_decides "testsalt" "first" "second" "salt" 20
                  [WithSalt "unused"] [WithLen 20; WithSalt "salt"; WithPassphrase "second"]
                  ltac:(cbn [In]; auto 10))).
Defined.

(** X17 at a CTR ciphertext of eighteen bytes that no one encrypted. *)
Lemma unauthenticated_modes_accept_any_ciphertext_witness :
  exists p,
    @Decrypt sample_scrypt sample_aes sample_tag HexCodec (NewCTR key16 iv16)
      "00000000000000000000000000000000ffff" = (p, None) /\
    len (list_byte_of_string p) = 2.
Proof.
  apply (proj2 (@unauthenticated_modes_accept_any_ciphertext sample_scrypt sample_aes
                  sample_tag HexCodec key16 iv16 "00000000000000000000000000000000ffff"
                  (fst (hex_Decode
                          (list_byte_of_string "00000000000000000000000000000000ffff")))
                  eq_refl eq_refl ltac:(vm_compute; discriminate))).
  cbn [In]. auto.
Defined.
